(** * The post library of the blog: post identifiers, summaries and rendering

    A shallow embedding of the library module of the site (the module that
    exports [getPostById] and [getPostInfosOrderedByDateDesc]) and of the
    route guard [isValidPostId] of the post page.

    JavaScript strings are sequences of UTF-16 code units; they are modelled
    as lists of code units, a code unit being a number.  Calls that can throw
    (the filesystem, the front-matter parser, the Markdown processor) run in
    a small monad that records the files read and returns either the
    exception or the value. *)

From Stdlib Require Import Ascii String.
From Stdlib Require Import List NArith ZArith Lia Bool.
From Stdlib Require Import Sorting.Sorted Sorting.Permutation.
From Stdlib Require Import DecimalString DecimalN.
Import ListNotations.

(* ================================================================== *)
(** * JavaScript strings *)
(* ================================================================== *)

Module JS.

Definition codeunit := N.
Definition jsstring := list codeunit.

(** A string literal: the code units of an ASCII text. *)
Definition lit (s : string) : jsstring :=
  map N_of_ascii (list_ascii_of_string s).

Definition NUL : codeunit := 0%N.
Definition LF : codeunit := 10%N.
Definition HYPHEN : codeunit := 45%N.
Definition SLASH : codeunit := 47%N.

Fixpoint eqb (a b : jsstring) : bool :=
  match a, b with
  | [], [] => true
  | x :: a', y :: b' => (x =? y)%N && eqb a' b'
  | _, _ => false
  end.

(** [\d] of a regular expression without the [u] flag: [0-9]. *)
Definition isDigit (c : codeunit) : bool :=
  ((48 <=? c) && (c <=? 57))%N.

(** WhiteSpace and LineTerminator of ECMAScript, the code units that
    [trimStart] removes. *)
Definition isWhiteSpace (c : codeunit) : bool :=
  ((c =? 9) || (c =? 10) || (c =? 11) || (c =? 12) || (c =? 13) ||
   (c =? 32) || (c =? 160) || (c =? 5760) ||
   ((8192 <=? c) && (c <=? 8202)) ||
   (c =? 8232) || (c =? 8233) || (c =? 8239) || (c =? 8287) ||
   (c =? 12288) || (c =? 65279))%N.

(** [s.trimStart()] *)
Fixpoint trimStart (s : jsstring) : jsstring :=
  match s with
  | c :: s' => if isWhiteSpace c then trimStart s' else s
  | [] => []
  end.

(** [s.startsWith(p)] *)
Fixpoint startsWith (s p : jsstring) {struct p} : bool :=
  match p, s with
  | [], _ => true
  | _ :: _, [] => false
  | x :: p', y :: s' => (x =? y)%N && startsWith s' p'
  end.

(** [s.endsWith(p)] *)
Definition endsWith (s p : jsstring) : bool :=
  startsWith (rev s) (rev p).

(** [s.indexOf(p)], the search starting at position [i] of the whole
    string: the position of the first occurrence, or -1. *)
Fixpoint indexOf_from (i : Z) (s p : jsstring) : Z :=
  if startsWith s p then i
  else match s with
       | [] => (-1)%Z
       | _ :: s' => indexOf_from (i + 1)%Z s' p
       end.

Definition indexOf (s p : jsstring) : Z := indexOf_from 0%Z s p.

(** [s.substring(start, end)]: both indices are clamped to [0, length] and
    swapped when [start] is the larger one. *)
Definition substring (s : jsstring) (start end_ : Z) : jsstring :=
  let len := Z.of_nat (length s) in
  let finalStart := Z.min (Z.max start 0) len in
  let finalEnd := Z.min (Z.max end_ 0) len in
  let from := Z.min finalStart finalEnd in
  let to := Z.max finalStart finalEnd in
  firstn (Z.to_nat (to - from)) (skipn (Z.to_nat from) s).

(** [s.slice(start, end)]: a negative index counts from the end. *)
Definition slice (s : jsstring) (start end_ : Z) : jsstring :=
  let len := Z.of_nat (length s) in
  let from := if (start <? 0)%Z then Z.max (len + start) 0 else Z.min start len in
  let to := if (end_ <? 0)%Z then Z.max (len + end_) 0 else Z.min end_ len in
  firstn (Z.to_nat (to - from)) (skipn (Z.to_nat from) s).

(** [s.split(sep)] for a separator of one code unit: never empty. *)
Fixpoint split (sep : codeunit) (s : jsstring) : list jsstring :=
  match s with
  | [] => [[]]
  | c :: s' =>
      if (c =? sep)%N then [] :: split sep s'
      else match split sep s' with
           | seg :: segs => (c :: seg) :: segs
           | [] => [[c]]
           end
  end.

(** [a.join(sep)] *)
Fixpoint join (sep : jsstring) (a : list jsstring) : jsstring :=
  match a with
  | [] => []
  | [x] => x
  | x :: a' => x ++ sep ++ join sep a'
  end.

(** [s.replace(/\.md$/, "")]: the pattern can only match the last three
    code units. *)
Definition replace_md_suffix (s : jsstring) : jsstring :=
  if endsWith s (lit ".md") then firstn (length s - 3) s else s.

(** The comparison of the default [Array.prototype.sort]: code unit by
    code unit, a proper prefix first. *)
Fixpoint compare (a b : jsstring) : comparison :=
  match a, b with
  | [], [] => Eq
  | [], _ :: _ => Lt
  | _ :: _, [] => Gt
  | x :: a', y :: b' =>
      match (x ?= y)%N with
      | Eq => compare a' b'
      | c => c
      end
  end.

Definition leb (a b : jsstring) : bool :=
  match compare a b with Gt => false | _ => true end.

(** The value of a string of decimal digits. *)
Definition digitsValue (s : jsstring) : N :=
  fold_left (fun acc c => (10 * acc + (c - 48))%N) s 0%N.

End JS.

Import JS.

(** [a.sort()] on an array of strings, which compares code unit by code
    unit.  The language leaves the algorithm to the engine and asks for a
    stable one; the order on strings is total, so every algorithm returns
    the same array.  Insertion is the one taken here. *)
Fixpoint insert (x : jsstring) (a : list jsstring) : list jsstring :=
  match a with
  | [] => [x]
  | y :: a' => if JS.leb x y then x :: a else y :: insert x a'
  end.

Fixpoint sort (a : list jsstring) : list jsstring :=
  match a with
  | [] => []
  | x :: a' => insert x (sort a')
  end.

(** [a.reverse()] *)
Definition reverse (a : list jsstring) : list jsstring := rev a.

(* ================================================================== *)
(** * Paths and the filesystem *)
(* ================================================================== *)

Module Path.

(** One step of path normalisation, on the stack of segments kept so far
    (the last segment first). *)
Definition normalizeStep (allowAboveRoot : bool)
    (res : list jsstring) (seg : jsstring) : list jsstring :=
  if JS.eqb seg [] || JS.eqb seg (lit ".") then res
  else if JS.eqb seg (lit "..") then
    match res with
    | top :: res' =>
        if JS.eqb top (lit "..") then seg :: res else res'
    | [] => if allowAboveRoot then [seg] else []
    end
  else seg :: res.

(** [path.normalize(p)] of Node's POSIX path module: empty and [.]
    segments are dropped, a [..] segment removes the segment before it, a
    relative path keeps the [..] it cannot resolve. *)
Definition normalize (p : jsstring) : jsstring :=
  match p with
  | [] => lit "."
  | _ =>
      let isAbsolute := startsWith p [SLASH] in
      let trailingSeparator := endsWith p [SLASH] in
      let segs := fold_left (normalizeStep (negb isAbsolute)) (split SLASH p) [] in
      let res := JS.join [SLASH] (rev segs) in
      match res with
      | [] =>
          if isAbsolute then [SLASH]
          else if trailingSeparator then lit "./" else lit "."
      | _ =>
          let res' := if trailingSeparator then res ++ [SLASH] else res in
          if isAbsolute then SLASH :: res' else res'
      end
  end.

(** [path.join(a, b)]: the non-empty arguments joined by [/], normalised. *)
Definition join (a b : jsstring) : jsstring :=
  match a, b with
  | [], [] => lit "."
  | [], _ => normalize b
  | _, [] => normalize a
  | _, _ => normalize (a ++ [SLASH] ++ b)
  end.

End Path.

Module Fs.

Inductive node :=
| File (content : jsstring)
| Dir (entries : list jsstring).

(** The filesystem seen by the process: what is at a path, if anything. *)
Definition t := jsstring -> option node.

End Fs.

(** The exceptions of the embedded calls.  [ENOENT] is Node's error for a
    path that does not exist, the not-found error of the reader;
    [ENOTDIR] its error for a path that goes through a regular file;
    [ENAMETOOLONG] its error for a name that is too long;
    [ERR_INVALID_ARG_VALUE] the type error for a path with a NUL. *)
Inductive exn :=
| ENOENT (path : jsstring)
| EISDIR (path : jsstring)
| ENOTDIR (path : jsstring)
| ENAMETOOLONG (path : jsstring)
| ERR_INVALID_ARG_VALUE (path : jsstring)
| MatterError (msg : jsstring)
| ProcessError (msg : jsstring).

Inductive event :=
| ReadFile (path : jsstring)
| ReadDir (path : jsstring).

(** A computation reads the filesystem, records what it read and either
    throws or returns. *)
Definition M (A : Type) : Type := Fs.t -> list event * (exn + A).

Definition ret {A} (a : A) : M A := fun _ => ([], inr a).
Definition bind {A B} (m : M A) (k : A -> M B) : M B :=
  fun fs =>
    match m fs with
    | (tr, inl e) => (tr, inl e)
    | (tr, inr a) => let (tr', r) := k a fs in (tr ++ tr', r)
    end.

Notation "x <- m ;; k" := (bind m (fun x => k))
  (at level 61, m at next level, right associativity).

Definition lift {A} (r : exn + A) : M A := fun _ => ([], r).

(** [a.map(f)] for a callback that can throw: the elements in order, the
    first exception ends the loop. *)
Fixpoint mapM {A B} (f : A -> M B) (a : list A) : M (list B) :=
  match a with
  | [] => ret []
  | x :: a' => y <- f x ;; ys <- mapM f a' ;; ret (y :: ys)
  end.

(** The longest name of a file, in bytes. *)
Definition NAME_MAX : nat := 255.

(** The number of bytes of a string in UTF-8, the encoding in which a path
    reaches the filesystem: a surrogate pair takes four bytes, a surrogate
    on its own the three of the replacement character. *)
Fixpoint utf8Length (s : jsstring) : nat :=
  match s with
  | [] => 0
  | c :: s' =>
      if (c <? 128)%N then 1 + utf8Length s'
      else if (c <? 2048)%N then 2 + utf8Length s'
      else if ((55296 <=? c) && (c <=? 56319))%N then
        match s' with
        | d :: s'' =>
            if ((56320 <=? d) && (d <=? 57343))%N then 4 + utf8Length s''
            else 3 + utf8Length s'
        | [] => 3
        end
      else 3 + utf8Length s'
  end.

(** The walk of the filesystem along the names of a path, up to the last
    name: the error at the first name that stops it, if any.  A name that
    is too long stops it; a name before the last one has to be a
    directory. *)
Fixpoint walk (fs : Fs.t) (path prefix : jsstring) (segs : list jsstring)
  : option exn :=
  match segs with
  | [] => None
  | seg :: rest =>
      if Nat.ltb NAME_MAX (utf8Length seg) then Some (ENAMETOOLONG path)
      else
        match rest with
        | [] => None
        | _ :: _ =>
            match prefix ++ seg with
            | [] => walk fs path [SLASH] rest
            | p =>
                match seg, fs p with
                | [], _ => walk fs path (p ++ [SLASH]) rest
                | _, Some (Fs.Dir _) => walk fs path (p ++ [SLASH]) rest
                | _, Some (Fs.File _) => Some (ENOTDIR path)
                | _, None => Some (ENOENT path)
                end
            end
        end
  end.

(** The error that a path meets before its last name is looked up: the
    type error when it has a NUL, else what stops the walk. *)
Definition pathError (fs : Fs.t) (path : jsstring) : option exn :=
  if existsb (N.eqb NUL) path then Some (ERR_INVALID_ARG_VALUE path)
  else walk fs path [] (split SLASH path).

(** The exception for a path at which there is nothing. *)
Definition missingError (fs : Fs.t) (path : jsstring) : exn :=
  match pathError fs path with
  | Some e => e
  | None => ENOENT path
  end.

(** [fs.readFileSync(path, "utf-8")].  A filesystem has nothing at a path
    that meets an error on its way, so the lookup can come first. *)
Definition readFileSync (path : jsstring) : M jsstring :=
  fun fs =>
    ([ReadFile path],
     match fs path with
     | Some (Fs.File content) => inr content
     | Some (Fs.Dir _) => inl (EISDIR path)
     | None => inl (missingError fs path)
     end).

(** [fs.readdirSync(path)] *)
Definition readdirSync (path : jsstring) : M (list jsstring) :=
  fun fs =>
    ([ReadDir path],
     match fs path with
     | Some (Fs.Dir entries) => inr entries
     | Some (Fs.File _) => inl (ENOTDIR path)
     | None => inl (missingError fs path)
     end).

Definition run {A} (m : M A) (fs : Fs.t) : exn + A := snd (m fs).
Definition reads {A} (m : M A) (fs : Fs.t) : list event := fst (m fs).

(* ================================================================== *)
(** * The library module *)
(* ================================================================== *)

Record PostId := {
  year : jsstring;
  month : jsstring;
  day : jsstring;
  slug : jsstring
}.

(** The front-matter data, with the type the module gives them. *)
Record MatterData := {
  title : jsstring;
  prenote : jsstring;
  date : jsstring
}.

(** What [readMatter] returns, as far as the module uses it. *)
Record MatterFile := {
  content : jsstring;
  data : MatterData
}.

(** The result of [getPostById]: the rendered body and the front-matter
    data spread next to it. *)
Record RenderedPost := {
  html : jsstring;
  post_data : MatterData
}.

(** A summary of the listing: the identifier, the intro and the
    front-matter data spread next to them. *)
Record PostInfo := {
  id : PostId;
  intro : jsstring;
  info_data : MatterData
}.

Definition postsDir : jsstring := lit "posts".

(** The intro of a summary:
    [content.substring(0, content.trimStart().indexOf("\n") + 1)]. *)
Definition introOf (content : jsstring) : jsstring :=
  substring content 0 (indexOf (trimStart content) [LF] + 1).

(** The identifier of a file name, as the listing derives it. *)
Definition postIdOf (fn : jsstring) : PostId :=
  match split HYPHEN (replace_md_suffix fn) with
  | date :: rest =>
      let slug := JS.join [HYPHEN] rest in
      let year := slice date 0 4 in
      let month := slice date 4 6 in
      let day := slice date 6 8 in
      {| year := year; month := month; day := day; slug := slug |}
  | [] => {| year := []; month := []; day := []; slug := [] |}
  end.

(** The file name of an identifier, as [getPostById] rebuilds it. *)
Definition fileNameOf (args : PostId) : jsstring :=
  year args ++ month args ++ day args ++ [HYPHEN] ++ slug args ++ lit ".md".

Section Library.

(** The front-matter parser and the Markdown processor are packages the
    module imports; the module only calls them. *)
Variable matter : jsstring -> exn + MatterFile.
Variable process : jsstring -> exn + jsstring.

Definition readMatter (fileName : jsstring) : M MatterFile :=
  let filePath := Path.join postsDir fileName in
  post <- readFileSync filePath ;;
  result <- lift (matter post) ;;
  ret result.

Definition getPostById (args : PostId) : M RenderedPost :=
  r <- readMatter (fileNameOf args) ;;
  postHtml <- lift (process (content r)) ;;
  ret {| html := postHtml; post_data := data r |}.

Definition postInfo (fn : jsstring) : M PostInfo :=
  r <- readMatter fn ;;
  ret {| id := postIdOf fn; intro := introOf (content r); info_data := data r |}.

Definition getPostInfosOrderedByDateDesc : M (list PostInfo) :=
  names <- readdirSync postsDir ;;
  let fileNames := reverse (sort names) in
  mapM postInfo fileNames.

End Library.

(** The route guard of the post page. *)
Definition isValidPostId (id : list jsstring) : bool :=
  match id with
  | [y; m; d; _] =>
      (Nat.eqb (length y) 4 && forallb isDigit y) &&
      (Nat.eqb (length m) 2 && forallb isDigit m) &&
      (Nat.eqb (length d) 2 && forallb isDigit d)
  | _ => false
  end.

(* ================================================================== *)
(** * The Markdown renderer *)
(* ================================================================== *)

(** The processor of the library module is assembled from packages: the
    module only lists the stages, in their order.  The stages on the
    HTML-flavoured document tree are modelled here from the description
    of the renderer; the parser, the conversion to the tree and the
    serialisation are left as parameters. *)

Module Renderer.

#[local] Unset Elimination Schemes.

(** Modelled from the spec: the HTML-flavoured document tree of the
    renderer, which the packages build and which is not part of the
    sources.  A node is an element with its properties and children, a
    text, or raw HTML carried through. *)
Inductive node :=
| Element (tagName : jsstring) (properties : list (jsstring * jsstring))
          (children : list node)
| Text (value : jsstring)
| Raw (value : jsstring).

#[local] Set Elimination Schemes.

Definition getProp (name : jsstring) (props : list (jsstring * jsstring))
  : option jsstring :=
  match find (fun kv => JS.eqb (fst kv) name) props with
  | Some kv => Some (snd kv)
  | None => None
  end.

Definition setProp (name value : jsstring) (props : list (jsstring * jsstring))
  : list (jsstring * jsstring) :=
  (name, value) :: filter (fun kv => negb (JS.eqb (fst kv) name)) props.

Definition isHeading (tagName : jsstring) : bool :=
  existsb (JS.eqb tagName)
    [lit "h1"; lit "h2"; lit "h3"; lit "h4"; lit "h5"; lit "h6"].

(** The text of a node: the texts below it, in order. *)
Fixpoint textOf (n : node) : jsstring :=
  match n with
  | Element _ _ children => concat (map textOf children)
  | Text value => value
  | Raw _ => []
  end.

Definition toLowerCase (c : codeunit) : codeunit :=
  if ((65 <=? c) && (c <=? 90))%N then (c + 32)%N else c.

Definition isPunctuation (c : codeunit) : bool :=
  (((33 <=? c) && (c <=? 47)) || ((58 <=? c) && (c <=? 64)) ||
   ((91 <=? c) && (c <=? 96)) || ((123 <=? c) && (c <=? 126)))%N.

Definition isSeparator (c : codeunit) : bool :=
  isWhiteSpace c || isPunctuation c.

(** The words of a text: the code units between separators. *)
Fixpoint splitBy (sep : codeunit -> bool) (s : jsstring) : list jsstring :=
  match s with
  | [] => [[]]
  | c :: s' =>
      if sep c then [] :: splitBy sep s'
      else match splitBy sep s' with
           | w :: ws => (c :: w) :: ws
           | [] => [[c]]
           end
  end.

Definition nonEmpty (s : jsstring) : bool :=
  match s with [] => false | _ => true end.

(** Modelled from the spec: the anchor text of stage 3, whose plugin
    ([rehypeSlug]) is not part of the sources.  The heading's text is
    lowercased and its whitespace and punctuation are normalised to
    hyphens: the words are joined by single hyphens. *)
Definition anchorOf (text : jsstring) : jsstring :=
  JS.join [HYPHEN]
    (filter nonEmpty (splitBy isSeparator (map toLowerCase text))).

(** A number in decimal digits. *)
Definition decimal (n : N) : jsstring :=
  lit (NilEmpty.string_of_uint (N.to_uint n)).

Definition withSuffix (base : jsstring) (n : N) : jsstring :=
  base ++ [HYPHEN] ++ decimal n.

Definition isUsed (used : list jsstring) (anchor : jsstring) : bool :=
  existsb (JS.eqb anchor) used.

(** The first of [base-n], [base-(n+1)], ... that is not in use.  There
    are more candidates than anchors in use, so the search ends within
    [length used] steps. *)
Fixpoint firstUnused (fuel : nat) (used : list jsstring) (base : jsstring) (n : N)
  : jsstring :=
  match fuel with
  | O => withSuffix base n
  | S fuel' =>
      if isUsed used (withSuffix base n)
      then firstUnused fuel' used base (N.succ n)
      else withSuffix base n
  end.

(** Modelled from the spec: the collision rule of stage 3, whose plugin
    ([rehypeSlug]) is not part of the sources.  An anchor that is not in
    use in the document is taken as it is; on collision a numeric suffix
    is appended ([intro], then [intro-1]). *)
Definition uniqueAnchor (used : list jsstring) (base : jsstring) : jsstring :=
  if isUsed used base then firstUnused (length used) used base 1 else base.

(** Modelled from the spec: stage 3 of the renderer ([rehypeSlug], not
    part of the sources) on one node.  Every heading gets an anchor id
    derived from its text; the anchors in use are carried through the
    document in reading order. *)
Fixpoint slugNode (used : list jsstring) (n : node) : list jsstring * node :=
  match n with
  | Element tagName properties children =>
      let slugChildren :=
        fix slugChildren (used : list jsstring) (cs : list node) :=
          match cs with
          | [] => (used, [])
          | c :: cs' =>
              let (used1, c') := slugNode used c in
              let (used2, cs'') := slugChildren used1 cs' in
              (used2, c' :: cs'')
          end in
      if isHeading tagName then
        let anchor := uniqueAnchor used (anchorOf (textOf n)) in
        let (used', children') := slugChildren (anchor :: used) children in
        (used', Element tagName (setProp (lit "id") anchor properties) children')
      else
        let (used', children') := slugChildren used children in
        (used', Element tagName properties children')
  | _ => (used, n)
  end.

Fixpoint slugNodes (used : list jsstring) (ns : list node)
  : list jsstring * list node :=
  match ns with
  | [] => (used, [])
  | n :: ns' =>
      let (used1, n') := slugNode used n in
      let (used2, ns'') := slugNodes used1 ns' in
      (used2, n' :: ns'')
  end.

(** Modelled from the spec: stage 3 on a document ([rehypeSlug], not part
    of the sources); no anchor is in use at its start. *)
Definition rehypeSlug (tree : list node) : list node :=
  snd (slugNodes [] tree).

(** Modelled from the spec: stage 4 of the renderer
    ([rehypeAutolinkHeadings] with the behaviour [wrap], not part of the
    sources).  The content of every heading that has an anchor id is
    wrapped in a link to that anchor. *)
Fixpoint autolinkNode (n : node) : node :=
  match n with
  | Element tagName properties children =>
      let children' := map autolinkNode children in
      if isHeading tagName then
        match getProp (lit "id") properties with
        | Some anchor =>
            Element tagName properties
              [Element (lit "a") [(lit "href", lit "#" ++ anchor)] children']
        | None => Element tagName properties children'
        end
      else Element tagName properties children'
  | _ => n
  end.

Definition rehypeAutolinkHeadings (tree : list node) : list node :=
  map autolinkNode tree.

(** The language tag of a code element: its class [language-...]. *)
Definition languageOf (properties : list (jsstring * jsstring)) : option jsstring :=
  match getProp (lit "className") properties with
  | Some c =>
      if startsWith c (lit "language-")
      then Some (skipn (length (lit "language-")) c) else None
  | None => None
  end.

(** A fenced code block in the tree: [pre] around [code] around the text. *)
Definition codeBlock (lang : option jsstring) (code : jsstring) : node :=
  Element (lit "pre") []
    [Element (lit "code")
       match lang with
       | Some l => [(lit "className", lit "language-" ++ l)]
       | None => []
       end
       [Text code]].

Section Highlighting.

(** The highlighter with its two themes: the markup for the code of a
    block in a language, or nothing when it does not know the language. *)
Variable highlighter : jsstring -> jsstring -> option (list node).

(** Modelled from the spec: stage 5 of the renderer ([rehypePrettyCode],
    not part of the sources).  The code of a fenced block is replaced by
    its highlighted markup, keyed by the declared language tag; a block
    without tag or in a language the highlighter does not know is left
    as it is. *)
Fixpoint prettyNode (n : node) : node :=
  match n with
  | Element tagName properties children =>
      match children with
      | [Element codeTag codeProperties [Text code]] =>
          if JS.eqb tagName (lit "pre") && JS.eqb codeTag (lit "code") then
            match languageOf codeProperties with
            | Some lang =>
                match highlighter lang code with
                | Some markup =>
                    Element tagName properties
                      [Element codeTag codeProperties markup]
                | None => n
                end
            | None => n
            end
          else Element tagName properties (map prettyNode children)
      | _ => Element tagName properties (map prettyNode children)
      end
  | _ => n
  end.

Definition rehypePrettyCode (tree : list node) : list node :=
  map prettyNode tree.

(** Stages 3 to 5, in the order of the processor. *)
Definition transform (tree : list node) : list node :=
  rehypePrettyCode (rehypeAutolinkHeadings (rehypeSlug tree)).

(** The processor: parse, convert, the three stages on the tree,
    serialise. *)
Definition processor {mdast : Type}
    (remarkParse : jsstring -> mdast)
    (remarkRehype : mdast -> list node)
    (rehypeStringify : list node -> jsstring)
    (content : jsstring) : jsstring :=
  rehypeStringify (transform (remarkRehype (remarkParse content))).

End Highlighting.

(** The anchor ids of the headings of a document, in reading order. *)
Fixpoint headingIdsOf (n : node) : list jsstring :=
  match n with
  | Element tagName properties children =>
      (if isHeading tagName then
         match getProp (lit "id") properties with
         | Some anchor => [anchor]
         | None => []
         end
       else []) ++ concat (map headingIdsOf children)
  | _ => []
  end.

Definition headingIds (tree : list node) : list jsstring :=
  concat (map headingIdsOf tree).

End Renderer.

Import Renderer.

(** Induction on a tree, with the property known for all children. *)
Fixpoint node_ind (P : node -> Prop)
    (HElement : forall tagName properties children,
        Forall P children -> P (Element tagName properties children))
    (HText : forall value, P (Text value))
    (HRaw : forall value, P (Raw value))
    (n : node) : P n :=
  match n with
  | Element tagName properties children =>
      HElement tagName properties children
        ((fix all (cs : list node) : Forall P cs :=
            match cs with
            | [] => Forall_nil P
            | c :: cs' =>
                Forall_cons c (node_ind P HElement HText HRaw c) (all cs')
            end) children)
  | Text value => HText value
  | Raw value => HRaw value
  end.

(* ================================================================== *)
(** * The vocabulary of the properties *)
(* ================================================================== *)

(** A post source file name: eight digits, a hyphen, a slug, [.md]. *)
Definition isPostFileName (fn : jsstring) : bool :=
  (12 <=? length fn) && forallb isDigit (firstn 8 fn) &&
  startsWith (skipn 8 fn) [HYPHEN] && endsWith fn (lit ".md").

Definition datePrefix (fn : jsstring) : jsstring := firstn 8 fn.

Definition stemOf (d s : jsstring) : jsstring := d ++ [HYPHEN] ++ s.

(** The file names in the order in which the listing visits them. *)
Definition fileNames (fs : Fs.t) : list jsstring :=
  match fs postsDir with
  | Some (Fs.Dir names) => reverse (sort names)
  | _ => []
  end.

(** The date of an identifier, as numbers. *)
Definition dateKey (i : PostId) : N * N * N :=
  (digitsValue (year i), digitsValue (month i), digitsValue (day i)).

(** [earlier a b]: the date of [a] is strictly before the date of [b]. *)
Definition earlier (a b : PostId) : Prop :=
  let '(ya, ma, da) := dateKey a in
  let '(yb, mb, db) := dateKey b in
  (ya < yb \/ (ya = yb /\ (ma < mb \/ (ma = mb /\ da < db))))%N.


(** A filesystem as the process can meet it: what it has lies at paths
    without NUL, of names that are not too long, below directories. *)
Definition wellFormed (fs : Fs.t) : Prop :=
  forall path, fs path <> None -> pathError fs path = None.

(** Whether a path stays below the posts directory. *)
Definition insidePostsDir (path : jsstring) : bool :=
  startsWith path (postsDir ++ [SLASH]).

(** The intro as the specification words it: the body from its start up
    to and including the first line break after the leading whitespace. *)
Definition introSpec (content : jsstring) : jsstring :=
  let lead := length content - length (trimStart content) in
  substring content 0 (Z.of_nat lead + indexOf (trimStart content) [LF] + 1).

(** The other reading of the same words: the first line of the trimmed
    body, with its line break. *)
Definition introSpecTrimmed (content : jsstring) : jsstring :=
  let trimmed := trimStart content in
  substring trimmed 0 (indexOf trimmed [LF] + 1).

(** The number of headings of a document. *)
Fixpoint headingCountOf (n : node) : nat :=
  match n with
  | Element tagName _ children =>
      (if isHeading tagName then 1 else 0) + list_sum (map headingCountOf children)
  | _ => 0
  end.

Definition headingCount (tree : list node) : nat :=
  list_sum (map headingCountOf tree).

(** What stage 3 has done when it leaves a node: the anchors it gave, in
    reverse reading order, were added to the anchors in use; every heading
    has one; and no anchor is in use twice. *)
Definition slugged (used : list jsstring) (count : nat)
    (used' : list jsstring) (ids : list jsstring) : Prop :=
  used' = rev ids ++ used /\ length ids = count /\ (NoDup used -> NoDup used').

(* ================================================================== *)
(** * A small site and a small document to run the functions on *)
(* ================================================================== *)

Definition noData : MatterData := {| title := []; prenote := []; date := [] |}.

(** The front-matter parser on a text without front-matter block: the
    whole text is the content and there are no data. *)
Definition plainMatter (post : jsstring) : exn + MatterFile :=
  inr {| content := post; data := noData |}.

(** A processor that returns its input. *)
Definition echoProcess (body : jsstring) : exn + jsstring := inr body.

Definition demoBody : jsstring :=
  [LF] ++ lit "At times." ++ [LF] ++ [LF] ++ lit "You can.".

Definition demoFs : Fs.t := fun path =>
  if JS.eqb path (lit "posts") then
    Some (Fs.Dir [lit "20230921-EF-Core.md"; lit "20250703-Views.md";
                  lit "20231103-Deep-dive.md"])
  else if JS.eqb path (lit "posts/20230921-EF-Core.md") then
    Some (Fs.File (lit "One line only."))
  else if JS.eqb path (lit "posts/20250703-Views.md") then
    Some (Fs.File demoBody)
  else if JS.eqb path (lit "posts/20231103-Deep-dive.md") then
    Some (Fs.File (lit "Azure." ++ [LF] ++ lit "More."))
  else if JS.eqb path (lit "README.md") then
    Some (Fs.File (lit "Not a post."))
  else None.

Definition demoInfos : list PostInfo :=
  match run (getPostInfosOrderedByDateDesc plainMatter) demoFs with
  | inr infos => infos
  | inl _ => []
  end.

(** A small highlighter: it knows one language. *)
Definition demoHighlighter (lang code : jsstring) : option (list node) :=
  if JS.eqb lang (lit "ts")
  then Some [Element (lit "span") [(lit "style", lit "color:#24292e")] [Text code]]
  else None.

Definition demoTree : list node :=
  [Element (lit "h2") [] [Text (lit "Intro")];
   Element (lit "p") [] [Text (lit "Some text.")];
   codeBlock (Some (lit "foo")) (lit "let x");
   Element (lit "h2") [] [Text (lit "Intro")]].

(* ================================================================== *)
(** * The pages *)
(* ================================================================== *)

#[local] Unset Elimination Schemes.

(** What a component returns: an element with its properties and
    children, a fragment, or a text.  A property holds a string; the
    property [dangerouslySetInnerHTML] holds the HTML it sets, the property
    [key] the number of the item.  The components of packages ([Link]) stay
    elements named after them. *)
Inductive jsx :=
| JsxElement (type : jsstring) (props : list (jsstring * jsstring))
             (children : list jsx)
| JsxFragment (children : list jsx)
| JsxText (value : jsstring).

#[local] Set Elimination Schemes.

(** [a.map((p, i) => f(p, i))], the index counted from [i]. *)
Fixpoint mapi_from {A B} (i : N) (f : A -> N -> B) (a : list A) : list B :=
  match a with
  | [] => []
  | x :: a' => f x i :: mapi_from (N.succ i) f a'
  end.

(** The component of the written date; without [className] the template
    string spells [undefined]. *)
Definition WrittenDate (date : jsstring) (className : option jsstring) : jsx :=
  JsxElement (lit "time")
    [(lit "dateTime", date);
     (lit "className",
      lit "pl-1 font-serif text-slate-400 bottom-0 " ++
      match className with Some c => c | None => lit "undefined" end)]
    [JsxElement (lit "svg")
       [(lit "className", lit "h-4 w-4 inline-block");
        (lit "width", lit "24");
        (lit "height", lit "24");
        (lit "xmlns", lit "http://www.w3.org/2000/svg");
        (lit "viewBox", lit "0 0 24 24");
        (lit "fill", lit "none");
        (lit "stroke", lit "currentColor");
        (lit "strokeWidth", lit "2");
        (lit "strokeLinecap", lit "round");
        (lit "strokeLinejoin", lit "round")]
       [JsxElement (lit "path") [(lit "d", lit "M12 19l7-7 3 3-7 7-3-3z")] [];
        JsxText (lit " ");
        JsxElement (lit "path")
          [(lit "d", lit "M18 13l-1.5-7.5L2 2l3.5 14.5L13 18l5-5z")] [];
        JsxText (lit " ");
        JsxElement (lit "path") [(lit "d", lit "M2 2l7.586 7.586")] [];
        JsxText (lit " ");
        JsxElement (lit "circle")
          [(lit "cx", lit "11"); (lit "cy", lit "11"); (lit "r", lit "2")] []];
     JsxText (lit " ");
     JsxText date].

(** The path of the link to a post: [/${year}/${month}/${day}/${slug}]. *)
Definition hrefOf (i : PostId) : jsstring :=
  [SLASH] ++ year i ++ [SLASH] ++ month i ++ [SLASH] ++ day i ++ [SLASH] ++ slug i.

(** One item of the home page. *)
Definition homeItem (p : PostInfo) (i : N) : jsx :=
  JsxElement (lit "li")
    [(lit "key", decimal i); (lit "className", lit "w-[min(800px,100%)]")]
    [JsxElement (lit "Link")
       [(lit "href", hrefOf (id p));
        (lit "className",
         lit "bg-slate-100 dark:bg-slate-800 inline-block rounded-sm shadow-md px-3 py-5 relative w-full")]
       [WrittenDate (date (info_data p)) None;
        JsxElement (lit "div") [(lit "className", lit "pl-2")]
          [JsxElement (lit "h3") [(lit "className", lit "text-xl py-2")]
             [JsxText (title (info_data p))];
           JsxElement (lit "p")
             [(lit "className", lit "text-sm text-slate-600 dark:text-slate-300")]
             [JsxText (intro p)]]]].

(** The exceptions of a page: the not-found signal of the framework, or
    what the library threw. *)
Inductive pageExn :=
| NEXT_NOT_FOUND
| Thrown (e : exn).

Record Metadata := {
  metadata_title : jsstring
}.

(** [Object.values(id)]: the four fields in the order in which the listing
    wrote them. *)
Definition objectValues (i : PostId) : list jsstring :=
  [year i; month i; day i; slug i].

(** [const [year, month, day, slug] = props.params.id]: a missing element
    is [undefined], which the file name template spells out. *)
Definition destructure (id : list jsstring) : PostId :=
  {| year := nth 0 id (lit "undefined");
     month := nth 1 id (lit "undefined");
     day := nth 2 id (lit "undefined");
     slug := nth 3 id (lit "undefined") |}.

(** What the post page returns for a rendered post.  A prenote that is the
    empty string is the value of the [&&] expression itself. *)
Definition postView (post : RenderedPost) : jsx :=
  let prenote := prenote (post_data post) in
  JsxElement (lit "div") [(lit "className", lit "flex justify-center")]
    [JsxElement (lit "div")
       [(lit "className", lit "md:px-10 min-w-0 max-w-7xl mb-12")]
       [JsxElement (lit "article") []
          [JsxElement (lit "header")
             [(lit "className", lit "px-5 mb-4 py-10 relative")]
             [JsxElement (lit "h1")
                [(lit "className",
                  lit "text-3xl leading-none tracking-tight text-gray-900 md:text-4xl lg:text-5xl dark:text-gray-100")]
                [JsxText (title (post_data post))];
              WrittenDate (date (post_data post)) (Some (lit "absolute"))];
           JsxElement (lit "div")
             [(lit "className",
               lit "bg-slate-100 dark:bg-slate-800 p-5 pb-12 rounded shadow-lg")]
             [match prenote with
              | [] => JsxText prenote
              | _ =>
                  JsxFragment
                    [JsxElement (lit "p")
                       [(lit "className", lit "italic text-slate-400 p-4");
                        (lit "dangerouslySetInnerHTML", prenote)] [];
                     JsxElement (lit "hr")
                       [(lit "className",
                         lit "h-px my-4 bg-gray-200 border-0 dark:bg-gray-700")] []]
              end;
              JsxElement (lit "div")
                [(lit "className", lit "space-y-4");
                 (lit "dangerouslySetInnerHTML", html post)] []]]]].

Section Pages.

(** The packages the library calls, and the title of the site, which the
    library exports from a file that is not among the sources. *)
Variable matter : jsstring -> exn + MatterFile.
Variable process : jsstring -> exn + jsstring.
Variable BASE_TITLE : jsstring.

(** The home page. *)
Definition Home : M jsx :=
  postInfos <- getPostInfosOrderedByDateDesc matter ;;
  ret (JsxElement (lit "ol")
         [(lit "className", lit "flex flex-col justify-center items-center gap-4")]
         (mapi_from 0 homeItem postInfos)).

(** The metadata of the post page. *)
Definition generateMetadata (id : list jsstring) : M Metadata :=
  if negb (isValidPostId id) then ret {| metadata_title := BASE_TITLE |}
  else
    post <- getPostById matter process (destructure id) ;;
    ret {| metadata_title := title (post_data post) ++ lit " | " ++ BASE_TITLE |}.

(** The post page. *)
Definition Post (id : list jsstring) : Fs.t -> list event * (pageExn + jsx) :=
  fun fs =>
    if negb (isValidPostId id) then ([], inl NEXT_NOT_FOUND)
    else
      match getPostById matter process (destructure id) fs with
      | (tr, inl e) => (tr, inl (Thrown e))
      | (tr, inr post) => (tr, inr (postView post))
      end.

(** The identifiers of the pages to build. *)
Definition generateStaticParams : M (list (list jsstring)) :=
  infos <- getPostInfosOrderedByDateDesc matter ;;
  ret (map (fun info => objectValues (id info)) infos).

End Pages.

(** The hrefs of the links of a page, in reading order. *)
Fixpoint linkHrefs (e : jsx) : list jsstring :=
  match e with
  | JsxElement type props children =>
      (if JS.eqb type (lit "Link") then
         match getProp (lit "href") props with
         | Some href => [href]
         | None => []
         end
       else []) ++ concat (map linkHrefs children)
  | JsxFragment children => concat (map linkHrefs children)
  | JsxText _ => []
  end.

(** The HTML that a page sets as it is, in reading order. *)
Fixpoint rawHtmlOf (e : jsx) : list jsstring :=
  match e with
  | JsxElement _ props children =>
      match getProp (lit "dangerouslySetInnerHTML") props with
      | Some h => [h]
      | None => []
      end ++ concat (map rawHtmlOf children)
  | JsxFragment children => concat (map rawHtmlOf children)
  | JsxText _ => []
  end.

(** The segments of a path after its leading slash. *)
Definition segmentsOf (path : jsstring) : list jsstring :=
  tl (split SLASH path).

(** A site whose posts directory holds a subdirectory between two posts. *)
Definition brokenFs : Fs.t := fun path =>
  if JS.eqb path (lit "posts") then
    Some (Fs.Dir [lit "20230921-EF-Core.md"; lit "2024"; lit "20250703-Views.md"])
  else if JS.eqb path (lit "posts/2024") then Some (Fs.Dir [])
  else demoFs path.

(** A front-matter parser for texts of three lines or more: the first
    line is the title, the second the prenote, the rest the content. *)
Definition titleMatter (post : jsstring) : exn + MatterFile :=
  match split LF post with
  | first :: second :: rest =>
      inr {| content := JS.join [LF] rest;
             data := {| title := first; prenote := second;
                        date := lit "2025-07-03" |} |}
  | _ => inl (MatterError post)
  end.

Definition demoNames : list jsstring :=
  [lit "20230921-EF-Core.md"; lit "20250703-Views.md"; lit "20231103-Deep-dive.md"].

Definition demoTitle : jsstring := lit "food for ai".

(* ================================================================== *)
(** * Facts about the string operations *)
(* ================================================================== *)

Lemma startsWith_app (p s : jsstring) : startsWith (p ++ s) p = true.
Proof.
  induction p as [|x p IH]; simpl; [reflexivity|].
  now rewrite N.eqb_refl, IH.
Qed.

Lemma startsWith_inv (s p : jsstring) :
  startsWith s p = true -> s = p ++ skipn (length p) s.
Proof.
  revert s; induction p as [|x p IH]; intros s H; simpl in *; [reflexivity|].
  destruct s as [|y s]; [discriminate|].
  apply andb_true_iff in H as [Hxy H].
  apply N.eqb_eq in Hxy; subst y.
  simpl. f_equal. now apply IH.
Qed.

Lemma endsWith_app (s p : jsstring) : endsWith (s ++ p) p = true.
Proof.
  unfold endsWith. rewrite rev_app_distr. apply startsWith_app.
Qed.

Lemma endsWith_inv (s p : jsstring) :
  endsWith s p = true -> s = firstn (length s - length p) s ++ p.
Proof.
  unfold endsWith. intros H.
  apply startsWith_inv in H.
  apply (f_equal (@rev codeunit)) in H.
  rewrite rev_involutive, rev_app_distr, rev_involutive in H.
  rewrite length_rev in H.
  set (t := rev (skipn (length p) (rev s))) in H. clearbody t. subst s.
  rewrite length_app, Nat.add_sub.
  now rewrite firstn_app, firstn_all, Nat.sub_diag, app_nil_r.
Qed.

Lemma replace_md_suffix_app (stem : jsstring) :
  replace_md_suffix (stem ++ lit ".md") = stem.
Proof.
  unfold replace_md_suffix. rewrite endsWith_app.
  rewrite length_app. change (length (lit ".md")) with 3.
  replace (length stem + 3 - 3) with (length stem + 0) by lia.
  now rewrite firstn_app_2, app_nil_r.
Qed.

Lemma split_not_nil (sep : codeunit) (s : jsstring) : split sep s <> [].
Proof.
  induction s as [|c s IH]; simpl; [discriminate|].
  destruct (c =? sep)%N; [discriminate|].
  destruct (split sep s); [congruence|discriminate].
Qed.

(** Joining what [split] returned gives the string back. *)
Lemma join_split (sep : codeunit) (s : jsstring) :
  JS.join [sep] (split sep s) = s.
Proof.
  induction s as [|c s IH]; simpl; [reflexivity|].
  destruct (c =? sep)%N eqn:E.
  - apply N.eqb_eq in E; subst c.
    destruct (split sep s) eqn:Es; [now apply split_not_nil in Es|].
    simpl in *. now rewrite IH.
  - destruct (split sep s) as [|seg segs] eqn:Es; [now apply split_not_nil in Es|].
    destruct segs; simpl in *; now rewrite <- IH.
Qed.

(** The first segment of a split ends at the first separator. *)
Lemma split_app_sep (sep : codeunit) (d s : jsstring) :
  forallb (fun c => negb (c =? sep)%N) d = true ->
  split sep (d ++ sep :: s) = d :: split sep s.
Proof.
  induction d as [|c d IH]; simpl; intros H.
  - now rewrite N.eqb_refl.
  - apply andb_true_iff in H as [Hc H].
    apply negb_true_iff in Hc. rewrite Hc, IH by assumption. reflexivity.
Qed.

Lemma digits_no_hyphen (d : jsstring) :
  forallb isDigit d = true ->
  forallb (fun c => negb (c =? HYPHEN)%N) d = true.
Proof.
  intros H. rewrite forallb_forall in *. intros c Hc.
  specialize (H c Hc). unfold isDigit, HYPHEN in *.
  apply andb_true_iff in H as [H1 H2].
  apply N.leb_le in H1. apply negb_true_iff, N.eqb_neq. lia.
Qed.

Lemma slice_date (d : jsstring) :
  length d = 8 -> slice d 0 4 ++ slice d 4 6 ++ slice d 6 8 = d.
Proof.
  intros H.
  do 9 (destruct d as [|? d]; try discriminate).
  reflexivity.
Qed.

Lemma slice_date_firstn (d : jsstring) :
  length d = 8 ->
  slice d 0 4 = firstn 4 d /\
  slice d 4 6 = firstn 2 (skipn 4 d) /\
  slice d 6 8 = skipn 6 d.
Proof.
  intros H.
  do 9 (destruct d as [|? d]; try discriminate).
  repeat split; reflexivity.
Qed.

Lemma isPostFileName_intro (d s : jsstring) :
  length d = 8 -> forallb isDigit d = true ->
  isPostFileName (stemOf d s ++ lit ".md") = true.
Proof.
  intros Hl Hd. unfold isPostFileName, stemOf.
  rewrite endsWith_app, andb_true_r.
  repeat rewrite <- app_assoc.
  assert (H12 : (12 <=? length (d ++ [HYPHEN] ++ s ++ lit ".md")) = true).
  { apply Nat.leb_le. rewrite !length_app. change (length (lit ".md")) with 3.
    simpl. lia. }
  rewrite H12.
  rewrite firstn_app, skipn_app, Hl, Nat.sub_diag, firstn_all2, skipn_all2 by lia.
  cbn [firstn skipn app]. rewrite app_nil_r, Hd.
  cbn [startsWith]. now rewrite N.eqb_refl.
Qed.

Lemma isPostFileName_inv (fn : jsstring) :
  isPostFileName fn = true ->
  exists d s, fn = stemOf d s ++ lit ".md" /\ d = datePrefix fn /\
              length d = 8 /\ forallb isDigit d = true.
Proof.
  unfold isPostFileName. intros H.
  repeat (apply andb_true_iff in H as [H ?]).
  apply Nat.leb_le in H.
  match goal with E : endsWith _ _ = true |- _ => apply endsWith_inv in E; rename E into He end.
  match goal with E : startsWith _ _ = true |- _ => rename E into Hs end.
  change (length (lit ".md")) with 3 in He.
  set (body := firstn (length fn - 3) fn) in *.
  assert (Hb : length body = length fn - 3) by (unfold body; rewrite length_firstn; lia).
  assert (Hp : firstn 8 fn = firstn 8 body).
  { rewrite He at 1. rewrite firstn_app.
    replace (8 - length body) with 0 by lia. simpl. now rewrite app_nil_r. }
  assert (Hk : skipn 8 fn = skipn 8 body ++ lit ".md").
  { rewrite He at 1. rewrite skipn_app.
    replace (8 - length body) with 0 by lia. reflexivity. }
  assert (Hh : exists s, skipn 8 body = HYPHEN :: s).
  { rewrite Hk in Hs.
    destruct (skipn 8 body) as [|c r] eqn:Er.
    - apply (f_equal (@length codeunit)) in Er.
      rewrite length_skipn in Er. simpl in Er. lia.
    - cbn [app startsWith] in Hs. rewrite andb_true_r in Hs.
      apply N.eqb_eq in Hs. subst c. now exists r. }
  destruct Hh as [s Hsk].
  exists (firstn 8 fn), s. unfold datePrefix, stemOf.
  repeat split; trivial.
  - rewrite He at 1. f_equal.
    rewrite <- (firstn_skipn 8 body) at 1. rewrite Hp, Hsk. reflexivity.
  - rewrite length_firstn. lia.
Qed.

(** The identifier of a post file name. *)
Lemma postIdOf_stem (d s : jsstring) :
  length d = 8 -> forallb isDigit d = true ->
  postIdOf (stemOf d s ++ lit ".md") =
  {| year := slice d 0 4; month := slice d 4 6; day := slice d 6 8; slug := s |}.
Proof.
  intros Hl Hd. unfold postIdOf, stemOf.
  rewrite replace_md_suffix_app. simpl ([HYPHEN] ++ s).
  rewrite split_app_sep by now apply digits_no_hyphen.
  now rewrite join_split.
Qed.

Lemma fileNameOf_postIdOf (d s : jsstring) :
  length d = 8 -> forallb isDigit d = true ->
  fileNameOf (postIdOf (stemOf d s ++ lit ".md")) = stemOf d s ++ lit ".md".
Proof.
  intros Hl Hd. rewrite postIdOf_stem by assumption.
  unfold fileNameOf, stemOf. simpl year; simpl month; simpl day; simpl slug.
  rewrite <- (slice_date d Hl) at 4.
  now rewrite <- !app_assoc.
Qed.

(** ** Searching and trimming *)

Lemma trimStart_split (s : jsstring) :
  exists ws, s = ws ++ trimStart s /\ forallb isWhiteSpace ws = true.
Proof.
  induction s as [|c s [ws [Hs Hw]]]; simpl.
  - now exists [].
  - destruct (isWhiteSpace c) eqn:E.
    + exists (c :: ws). simpl. rewrite E, Hw. split; [now f_equal|reflexivity].
    + now exists [].
Qed.

Lemma trimStart_In (c : codeunit) (s : jsstring) :
  In c (trimStart s) -> In c s.
Proof.
  destruct (trimStart_split s) as [ws [Hs _]].
  intros H. rewrite Hs. apply in_or_app. now right.
Qed.

Lemma trimStart_id (s : jsstring) :
  match s with c :: _ => isWhiteSpace c = false | [] => True end ->
  trimStart s = s.
Proof.
  destruct s as [|c s]; simpl; [reflexivity|]. now intros ->.
Qed.

Lemma indexOf_from_absent (c : codeunit) (s : jsstring) (i : Z) :
  ~ In c s -> indexOf_from i s [c] = (-1)%Z.
Proof.
  revert i; induction s as [|x s IH]; intros i H; simpl; [reflexivity|].
  destruct (N.eqb_spec c x) as [->|Hne].
  - exfalso. apply H. now left.
  - simpl. apply IH. intros Hin. apply H. now right.
Qed.

Lemma indexOf_from_first (c : codeunit) (a b : jsstring) (i : Z) :
  ~ In c a -> indexOf_from i (a ++ c :: b) [c] = (i + Z.of_nat (length a))%Z.
Proof.
  revert i; induction a as [|x a IH]; intros i H; simpl.
  - rewrite N.eqb_refl. simpl. lia.
  - destruct (N.eqb_spec c x) as [->|Hne].
    + exfalso. apply H. now left.
    + simpl. rewrite IH; [lia|]. intros Hin. apply H. now right.
Qed.

Lemma substring_0_0 (s : jsstring) : substring s 0 0 = [].
Proof.
  unfold substring. simpl Z.max.
  rewrite Z.min_id, Z.max_id, Z.sub_diag. reflexivity.
Qed.

Lemma substring_0_n (s : jsstring) (n : nat) :
  substring s 0 (Z.of_nat n) = firstn n s.
Proof.
  unfold substring.
  set (len := Z.of_nat (length s)).
  assert (Hlen : (0 <= len)%Z) by (unfold len; lia).
  replace (Z.max 0 0) with 0%Z by reflexivity.
  replace (Z.min 0 len) with 0%Z by lia.
  replace (Z.min 0 (Z.min (Z.max (Z.of_nat n) 0) len)) with 0%Z by lia.
  replace (Z.max 0 (Z.min (Z.max (Z.of_nat n) 0) len))
    with (Z.min (Z.of_nat n) len) by lia.
  simpl skipn. rewrite Z.sub_0_r.
  destruct (Nat.le_gt_cases n (length s)) as [Hle|Hgt].
  - replace (Z.min (Z.of_nat n) len) with (Z.of_nat n) by (unfold len; lia).
    now rewrite Nat2Z.id.
  - replace (Z.min (Z.of_nat n) len) with len by (unfold len; lia).
    unfold len. rewrite Nat2Z.id.
    now rewrite !firstn_all2 by lia.
Qed.

(** A body without line break has an empty intro. *)
Lemma introOf_no_line_break (content : jsstring) :
  ~ In LF content -> introOf content = [].
Proof.
  intros H. unfold introOf, indexOf.
  rewrite indexOf_from_absent.
  - apply substring_0_0.
  - intros Hin. apply H. now apply trimStart_In.
Qed.

(** The intro is a prefix of the untrimmed body whose length is taken from
    the trimmed one. *)
Lemma introOf_first_line (content line rest : jsstring) :
  trimStart content = line ++ LF :: rest -> ~ In LF line ->
  introOf content = firstn (length line + 1) content.
Proof.
  intros Ht Hl. unfold introOf, indexOf.
  rewrite Ht, indexOf_from_first by assumption.
  replace (0 + Z.of_nat (length line) + 1)%Z with (Z.of_nat (length line + 1)) by lia.
  apply substring_0_n.
Qed.

(** ** Sorting *)

Lemma leb_total (a b : jsstring) : JS.leb a b = true \/ JS.leb b a = true.
Proof.
  unfold JS.leb. revert b; induction a as [|x a IH]; destruct b as [|y b];
    simpl; auto.
  rewrite (N.compare_antisym x y).
  destruct (N.compare x y); simpl; auto.
Qed.

Lemma insert_permutation (x : jsstring) (a : list jsstring) :
  Permutation (x :: a) (insert x a).
Proof.
  induction a as [|y a IH]; simpl; [reflexivity|].
  destruct (JS.leb x y); [reflexivity|].
  rewrite perm_swap. now constructor.
Qed.

Lemma sort_permutation (a : list jsstring) : Permutation a (sort a).
Proof.
  induction a as [|x a IH]; simpl; [reflexivity|].
  rewrite <- insert_permutation. now constructor.
Qed.

(* ================================================================== *)
(** * Facts about the computations *)
(* ================================================================== *)

Lemma run_bind {A B} (m : M A) (k : A -> M B) (fs : Fs.t) :
  run (bind m k) fs =
  match run m fs with
  | inl e => inl e
  | inr a => run (k a) fs
  end.
Proof.
  unfold run, bind. destruct (m fs) as [tr [e|a]]; simpl; [reflexivity|].
  now destruct (k a fs).
Qed.

Lemma reads_bind {A B} (m : M A) (k : A -> M B) (fs : Fs.t) :
  reads (bind m k) fs =
  reads m fs ++ match run m fs with
                | inl _ => []
                | inr a => reads (k a) fs
                end.
Proof.
  unfold run, reads, bind. destruct (m fs) as [tr [e|a]]; simpl.
  - now rewrite app_nil_r.
  - now destruct (k a fs).
Qed.

Lemma run_mapM {A B} (f : A -> M B) (fs : Fs.t) (a : list A) (ys : list B) :
  run (mapM f a) fs = inr ys <->
  Forall2 (fun x y => run (f x) fs = inr y) a ys.
Proof.
  revert ys; induction a as [|x a IH]; intros ys; simpl.
  - unfold run, ret; simpl. split.
    + intros H. injection H as <-. constructor.
    + intros H. now inversion H.
  - rewrite run_bind. split.
    + destruct (run (f x) fs) as [e|y] eqn:Ey; [discriminate|].
      rewrite run_bind.
      destruct (run (mapM f a) fs) as [e|zs] eqn:Ez; [discriminate|].
      unfold run, ret; simpl. intros H. injection H as <-.
      constructor; [assumption|]. now apply IH.
    + intros H. inversion H as [|? y ? zs Hy Hzs]; subst.
      rewrite Hy, run_bind.
      apply IH in Hzs. now rewrite Hzs.
Qed.

Lemma run_mapM_total {A B} (f : A -> M B) (fs : Fs.t) (a : list A) :
  Forall (fun x => exists y, run (f x) fs = inr y) a ->
  exists ys, run (mapM f a) fs = inr ys.
Proof.
  induction 1 as [|x a [y Hy] _ [ys Hys]].
  - now exists [].
  - exists (y :: ys). apply run_mapM. constructor; [assumption|].
    now apply run_mapM.
Qed.

Section LibraryFacts.

Variable matter : jsstring -> exn + MatterFile.
Variable process : jsstring -> exn + jsstring.

Lemma run_readMatter (fs : Fs.t) (fileName : jsstring) :
  run (readMatter matter fileName) fs =
  match fs (Path.join postsDir fileName) with
  | Some (Fs.File post) => matter post
  | Some (Fs.Dir _) => inl (EISDIR (Path.join postsDir fileName))
  | None => inl (missingError fs (Path.join postsDir fileName))
  end.
Proof.
  unfold readMatter, run, bind, readFileSync, lift, ret.
  destruct (fs (Path.join postsDir fileName)) as [[post|]|]; try reflexivity.
  now destruct (matter post).
Qed.

Lemma reads_readMatter (fs : Fs.t) (fileName : jsstring) :
  reads (readMatter matter fileName) fs =
  [ReadFile (Path.join postsDir fileName)].
Proof.
  unfold readMatter, reads, bind, readFileSync, lift, ret.
  destruct (fs (Path.join postsDir fileName)) as [[post|]|]; try reflexivity.
  now destruct (matter post).
Qed.

Lemma run_getPostById (fs : Fs.t) (args : PostId) :
  run (getPostById matter process args) fs =
  match run (readMatter matter (fileNameOf args)) fs with
  | inl e => inl e
  | inr r =>
      match process (content r) with
      | inl e => inl e
      | inr postHtml => inr {| html := postHtml; post_data := data r |}
      end
  end.
Proof.
  unfold getPostById. rewrite run_bind.
  destruct (run (readMatter matter (fileNameOf args)) fs) as [e|r]; [reflexivity|].
  unfold run, bind, lift, ret.
  now destruct (process (content r)).
Qed.

Lemma reads_getPostById (fs : Fs.t) (args : PostId) :
  reads (getPostById matter process args) fs =
  [ReadFile (Path.join postsDir (fileNameOf args))].
Proof.
  unfold getPostById. rewrite reads_bind, reads_readMatter.
  destruct (run (readMatter matter (fileNameOf args)) fs) as [e|r]; [reflexivity|].
  unfold reads, bind, lift, ret.
  now destruct (process (content r)).
Qed.

Lemma run_postInfo (fs : Fs.t) (fn : jsstring) :
  run (postInfo matter fn) fs =
  match run (readMatter matter fn) fs with
  | inl e => inl e
  | inr r => inr {| id := postIdOf fn; intro := introOf (content r);
                    info_data := data r |}
  end.
Proof.
  unfold postInfo. rewrite run_bind.
  now destruct (run (readMatter matter fn) fs).
Qed.

Lemma run_getPostInfos (fs : Fs.t) :
  run (getPostInfosOrderedByDateDesc matter) fs =
  match fs postsDir with
  | Some (Fs.Dir _) => run (mapM (postInfo matter) (fileNames fs)) fs
  | Some (Fs.File _) => inl (ENOTDIR postsDir)
  | None => inl (ENOENT postsDir)
  end.
Proof.
  unfold getPostInfosOrderedByDateDesc, fileNames. rewrite run_bind.
  unfold run at 1, readdirSync. cbn [snd].
  now destruct (fs postsDir) as [[|]|].
Qed.

(** What a listing that returns has returned: one summary per file, in
    the order of [fileNames]. *)
Lemma getPostInfos_inv (fs : Fs.t) (infos : list PostInfo) :
  run (getPostInfosOrderedByDateDesc matter) fs = inr infos ->
  Forall2 (fun fn info =>
             exists r, run (readMatter matter fn) fs = inr r /\
                       info = {| id := postIdOf fn;
                                 intro := introOf (content r);
                                 info_data := data r |})
          (fileNames fs) infos.
Proof.
  rewrite run_getPostInfos. intros H.
  assert (Hm : run (mapM (postInfo matter) (fileNames fs)) fs = inr infos).
  { destruct (fs postsDir) as [[|]|]; (discriminate || assumption). }
  apply run_mapM in Hm.
  eapply Forall2_impl; [|exact Hm].
  intros fn info Hi. cbv beta in Hi. rewrite run_postInfo in Hi.
  destruct (run (readMatter matter fn) fs) as [e|r]; [discriminate|].
  exists r. split; [reflexivity|]. now injection Hi.
Qed.

(** The listing returns when the directory and every file in it can be
    read and parsed. *)
Lemma getPostInfos_total (fs : Fs.t) (names : list jsstring) :
  fs postsDir = Some (Fs.Dir names) ->
  (forall fn, In fn names -> exists r, run (readMatter matter fn) fs = inr r) ->
  exists infos, run (getPostInfosOrderedByDateDesc matter) fs = inr infos.
Proof.
  intros Hd Hr. rewrite run_getPostInfos, Hd.
  apply run_mapM_total. apply Forall_forall. intros fn Hin.
  assert (Hn : In fn names).
  { unfold fileNames, reverse, sort in Hin. rewrite Hd in Hin.
    apply in_rev in Hin.
    eapply Permutation_in; [|exact Hin].
    apply Permutation_sym, sort_permutation. }
  destruct (Hr fn Hn) as [r Hrd].
  rewrite run_postInfo, Hrd. eauto.
Qed.

End LibraryFacts.

(* ================================================================== *)
(** * The order of file names and the order of dates *)
(* ================================================================== *)

Lemma compare_eq (a b : jsstring) : JS.compare a b = Eq <-> a = b.
Proof.
  revert b; induction a as [|x a IH]; destruct b as [|y b]; simpl;
    try (split; (discriminate || reflexivity)).
  destruct (N.compare_spec x y) as [->|H|H].
  - rewrite IH. split; [now intros ->|now intros [= ->]].
  - split; [discriminate|intros [= -> _]; lia].
  - split; [discriminate|intros [= -> _]; lia].
Qed.

Lemma leb_trans (a b c : jsstring) :
  JS.leb a b = true -> JS.leb b c = true -> JS.leb a c = true.
Proof.
  unfold JS.leb. revert b c; induction a as [|x a IH];
    intros [|y b] [|z c]; simpl; try (reflexivity || discriminate).
  destruct (N.compare_spec x y) as [->|Hxy|Hxy]; try discriminate.
  - destruct (N.compare_spec y z) as [->|Hyz|Hyz]; try discriminate.
    + apply IH.
    + reflexivity.
  - intros _.
    destruct (N.compare_spec y z) as [->|Hyz|Hyz]; try discriminate.
    + intros _. destruct (N.compare_spec x z); (reflexivity || lia).
    + intros _. destruct (N.compare_spec x z); (reflexivity || lia).
Qed.

(** Two names with different prefixes of one length compare as their
    prefixes do. *)
Lemma compare_app_prefix (p q r t : jsstring) :
  length p = length q -> p <> q ->
  JS.compare (p ++ r) (q ++ t) = JS.compare p q.
Proof.
  revert q; induction p as [|x p IH]; intros [|y q] Hl Hne; simpl in *;
    try discriminate; try congruence.
  destruct (N.compare_spec x y) as [->|H|H]; try reflexivity.
  apply IH; [lia|congruence].
Qed.

Lemma digitsValue_acc (s : jsstring) (acc : N) :
  (fold_left (fun a c => 10 * a + (c - 48)) s acc =
   acc * 10 ^ N.of_nat (length s) + digitsValue s)%N.
Proof.
  unfold digitsValue. revert acc; induction s as [|c s IH]; intros acc.
  - simpl. lia.
  - cbn [fold_left length]. rewrite IH, (IH (10 * 0 + (c - 48))%N).
    rewrite Nat2N.inj_succ, N.pow_succ_r'. lia.
Qed.

Lemma digitsValue_cons (c : codeunit) (s : jsstring) :
  (digitsValue (c :: s) = (c - 48) * 10 ^ N.of_nat (length s) + digitsValue s)%N.
Proof.
  unfold digitsValue at 1. cbn [fold_left]. rewrite digitsValue_acc.
  now rewrite N.mul_0_r, N.add_0_l.
Qed.

Lemma digitsValue_app (a b : jsstring) :
  (digitsValue (a ++ b) =
   digitsValue a * 10 ^ N.of_nat (length b) + digitsValue b)%N.
Proof.
  unfold digitsValue at 1. rewrite fold_left_app.
  fold (digitsValue a). apply digitsValue_acc.
Qed.

Lemma digitsValue_bound (s : jsstring) :
  forallb isDigit s = true -> (digitsValue s < 10 ^ N.of_nat (length s))%N.
Proof.
  induction s as [|c s IH]; intros H.
  - reflexivity.
  - cbn [forallb] in H. apply andb_true_iff in H as [Hc H].
    specialize (IH H). rewrite digitsValue_cons.
    unfold isDigit in Hc. apply andb_true_iff in Hc as [H1 H2].
    apply N.leb_le in H1, H2.
    cbn [length]. rewrite Nat2N.inj_succ, N.pow_succ_r'.
    nia.
Qed.

(** On strings of digits of one length the order of the strings is the
    order of the numbers. *)
Lemma compare_digits (p q : jsstring) :
  length p = length q ->
  forallb isDigit p = true -> forallb isDigit q = true ->
  JS.compare p q = (digitsValue p ?= digitsValue q)%N.
Proof.
  revert q; induction p as [|x p IH]; intros [|y q] Hl Hp Hq;
    try discriminate; [reflexivity|].
  cbn [forallb] in Hp, Hq.
  apply andb_true_iff in Hp as [Hx Hp]. apply andb_true_iff in Hq as [Hy Hq].
  injection Hl as Hl.
  pose proof (digitsValue_bound p Hp) as Bp.
  pose proof (digitsValue_bound q Hq) as Bq.
  rewrite !digitsValue_cons. rewrite <- Hl in *.
  unfold isDigit in Hx, Hy.
  apply andb_true_iff in Hx as [Hx1 Hx2]. apply andb_true_iff in Hy as [Hy1 Hy2].
  apply N.leb_le in Hx1, Hx2, Hy1, Hy2.
  simpl JS.compare.
  destruct (N.compare_spec x y) as [->|H|H].
  - rewrite (IH q) by assumption.
    rewrite Hl. symmetry.
    destruct (N.compare_spec (digitsValue p) (digitsValue q)) as [E|E|E].
    + apply N.compare_eq_iff. lia.
    + apply N.compare_lt_iff. lia.
    + apply N.compare_gt_iff. lia.
  - symmetry. apply N.compare_lt_iff. nia.
  - symmetry. apply N.compare_gt_iff. nia.
Qed.

Lemma forallb_firstn {A} (f : A -> bool) (n : nat) (l : list A) :
  forallb f l = true -> forallb f (firstn n l) = true.
Proof.
  rewrite !forallb_forall. intros H x Hx. apply H.
  eapply In_nth_error in Hx as [k Hk].
  rewrite <- (firstn_skipn n l). apply in_or_app. left.
  eapply nth_error_In; eassumption.
Qed.

Lemma forallb_skipn {A} (f : A -> bool) (n : nat) (l : list A) :
  forallb f l = true -> forallb f (skipn n l) = true.
Proof.
  rewrite !forallb_forall. intros H x Hx. apply H.
  rewrite <- (firstn_skipn n l). apply in_or_app. now right.
Qed.

(** The number of an eight-digit date in terms of its year, month and day. *)
Lemma dateKey_value (d s : jsstring) :
  length d = 8 -> forallb isDigit d = true ->
  let '(y, m, dd) := dateKey (postIdOf (stemOf d s ++ lit ".md")) in
  (digitsValue d = y * 10000 + m * 100 + dd /\ m < 100 /\ dd < 100)%N.
Proof.
  intros Hl Hd. rewrite postIdOf_stem by assumption.
  unfold dateKey. cbn [year month day].
  destruct (slice_date_firstn d Hl) as (-> & -> & ->).
  assert (Hm : forallb isDigit (firstn 2 (skipn 4 d)) = true)
    by now apply forallb_firstn, forallb_skipn.
  assert (Hdd : forallb isDigit (skipn 6 d) = true) by now apply forallb_skipn.
  apply digitsValue_bound in Hm, Hdd.
  rewrite length_firstn, length_skipn in Hm. rewrite length_skipn in Hdd.
  rewrite Hl in Hm, Hdd. simpl in Hm, Hdd.
  split; [|split; assumption].
  do 9 (destruct d as [|? d]; try discriminate).
  cbn [firstn skipn].
  rewrite !digitsValue_cons. cbn [length].
  change (digitsValue []) with 0%N. simpl N.of_nat.
  change (10 ^ 7)%N with 10000000%N. change (10 ^ 6)%N with 1000000%N.
  change (10 ^ 5)%N with 100000%N. change (10 ^ 4)%N with 10000%N.
  change (10 ^ 3)%N with 1000%N. change (10 ^ 2)%N with 100%N.
  change (10 ^ 1)%N with 10%N. change (10 ^ 0)%N with 1%N.
  lia.
Qed.

(** Of two post files with different date prefixes, the one that sorts
    first has the earlier date. *)
Lemma leb_earlier (a b : jsstring) :
  isPostFileName a = true -> isPostFileName b = true ->
  datePrefix a <> datePrefix b ->
  JS.leb a b = true -> earlier (postIdOf a) (postIdOf b).
Proof.
  intros Ha Hb Hne Hle.
  apply isPostFileName_inv in Ha as (da & sa & Ea & Pa & La & Da).
  apply isPostFileName_inv in Hb as (db & sb & Eb & Pb & Lb & Db).
  rewrite <- Pa, <- Pb in Hne.
  pose proof (dateKey_value da sa La Da) as Ka.
  pose proof (dateKey_value db sb Lb Db) as Kb.
  rewrite <- Ea in Ka. rewrite <- Eb in Kb.
  assert (Hlt : (digitsValue da < digitsValue db)%N).
  { unfold JS.leb in Hle. rewrite Ea, Eb in Hle. unfold stemOf in Hle.
    rewrite <- !app_assoc in Hle.
    rewrite compare_app_prefix in Hle by congruence.
    pose proof (compare_eq da db) as Heq.
    rewrite compare_digits in Hle, Heq by congruence.
    destruct (N.compare_spec (digitsValue da) (digitsValue db)) as [E|E|E].
    - exfalso. apply Hne. now apply Heq.
    - assumption.
    - discriminate. }
  unfold earlier.
  destruct (dateKey (postIdOf a)) as [[ya ma] dda].
  destruct (dateKey (postIdOf b)) as [[yb mb] ddb].
  lia.
Qed.

(** ** Sorted lists *)

Lemma StronglySorted_app {A} (R : A -> A -> Prop) (l1 l2 : list A) :
  StronglySorted R l1 -> StronglySorted R l2 ->
  (forall x y, In x l1 -> In y l2 -> R x y) ->
  StronglySorted R (l1 ++ l2).
Proof.
  induction 1 as [|a l1 Hs IH Hf]; intros H2 Hx; simpl; [assumption|].
  constructor.
  - apply IH; [assumption|]. intros x y Hi Hj. apply Hx; [now right|assumption].
  - apply Forall_app. split; [assumption|].
    apply Forall_forall. intros y Hy. apply Hx; [now left|assumption].
Qed.

Lemma StronglySorted_rev {A} (R : A -> A -> Prop) (l : list A) :
  StronglySorted R l -> StronglySorted (fun x y => R y x) (rev l).
Proof.
  induction 1 as [|a l Hs IH Hf]; simpl; [constructor|].
  apply StronglySorted_app; [assumption|repeat constructor|].
  intros x y Hx [<-|[]]. rewrite Forall_forall in Hf.
  apply Hf. now apply in_rev.
Qed.

(** A sorted list with pairwise different keys is sorted for every
    relation that the order implies on different keys. *)
Lemma StronglySorted_distinct {A K} (R R' : A -> A -> Prop)
    (P : A -> Prop) (key : A -> K) (l : list A) :
  (forall x y, P x -> P y -> key x <> key y -> R x y -> R' x y) ->
  Forall P l -> NoDup (map key l) ->
  StronglySorted R l -> StronglySorted R' l.
Proof.
  intros HR HP Hnd Hs.
  induction Hs as [|a l Hs IH Hf]; [constructor|].
  inversion HP as [|? ? Pa Pl]; subst.
  cbn [map] in Hnd. inversion Hnd as [|? ? Hnotin Hnd']; subst.
  constructor; [now apply IH|].
  rewrite Forall_forall in *. intros y Hy.
  apply HR; auto.
  intros Heq. apply Hnotin. rewrite Heq. now apply in_map.
Qed.

Lemma StronglySorted_Forall2 {A B} (R : A -> A -> Prop) (R' : B -> B -> Prop)
    (Q : A -> B -> Prop) (l : list A) (l' : list B) :
  (forall x y x' y', Q x x' -> Q y y' -> R x y -> R' x' y') ->
  Forall2 Q l l' -> StronglySorted R l -> StronglySorted R' l'.
Proof.
  intros HR HQ. induction HQ as [|x x' l l' Hx HQ IH]; intros Hs; [constructor|].
  apply StronglySorted_inv in Hs as [Hs Hf].
  constructor; [now apply IH|].
  clear IH Hs. induction HQ as [|y y' l l' Hy HQ IH]; [constructor|].
  inversion Hf; subst. constructor; [|now apply IH].
  eapply HR; eassumption.
Qed.

Lemma insert_sorted (x : jsstring) (a : list jsstring) :
  StronglySorted (fun u v => JS.leb u v = true) a ->
  StronglySorted (fun u v => JS.leb u v = true) (insert x a).
Proof.
  induction 1 as [|y a Hs IH Hf]; simpl; [repeat constructor|].
  destruct (JS.leb x y) eqn:E.
  - constructor; [now constructor|].
    constructor; [assumption|].
    eapply Forall_impl; [|exact Hf]. intros z Hz. eapply leb_trans; eassumption.
  - constructor; [assumption|].
    eapply Permutation_Forall; [apply insert_permutation|].
    constructor; [|assumption].
    destruct (leb_total x y); congruence.
Qed.

(** The sorted array is sorted. *)
Lemma sort_sorted (a : list jsstring) :
  StronglySorted (fun x y => JS.leb x y = true) (sort a).
Proof.
  induction a as [|x a IH]; simpl; [constructor|]. now apply insert_sorted.
Qed.

Lemma fileNames_sorted (fs : Fs.t) :
  StronglySorted (fun x y => JS.leb y x = true) (fileNames fs).
Proof.
  unfold fileNames. destruct (fs postsDir) as [[|names]|]; try constructor.
  apply StronglySorted_rev, sort_sorted.
Qed.

Lemma fileNames_permutation (fs : Fs.t) (names : list jsstring) :
  fs postsDir = Some (Fs.Dir names) -> Permutation names (fileNames fs).
Proof.
  intros H. unfold fileNames. rewrite H. unfold reverse.
  etransitivity; [apply sort_permutation|apply Permutation_rev].
Qed.

(* ================================================================== *)
(** * The properties of the post reader *)
(* ================================================================== *)

Lemma Forall2_In_l {A B} (P : A -> B -> Prop) (l : list A) (l' : list B) (x : A) :
  Forall2 P l l' -> In x l -> exists y, In y l' /\ P x y.
Proof.
  induction 1 as [|a b l l' Hab _ IH]; intros Hin; [contradiction|].
  destruct Hin as [->|Hin].
  - exists b. split; [now left|assumption].
  - destruct (IH Hin) as [y [Hy Hp]]. exists y. split; [now right|assumption].
Qed.

(** C1. For every file name stem made of an eight-digit date, a hyphen and
    a slug (which may contain hyphens), the identifier derived from the
    file name gives the stem back when year, month, day, a hyphen and the
    slug are concatenated; the file name that [getPostById] rebuilds from
    it is the original one, and for a file of the listing that is the
    file [getPostById] reads for the identifier the listing returned. *)
Theorem post_id_roundtrip (d s : jsstring) :
  length d = 8 -> forallb isDigit d = true ->
  let fn := stemOf d s ++ lit ".md" in
  let i := postIdOf fn in
  year i ++ month i ++ day i ++ [HYPHEN] ++ slug i = stemOf d s /\
  fileNameOf i = fn /\
  forall matter process fs infos,
    In fn (fileNames fs) ->
    run (getPostInfosOrderedByDateDesc matter) fs = inr infos ->
    (exists info, In info infos /\ id info = i) /\
    reads (getPostById matter process i) fs =
      [ReadFile (Path.join postsDir fn)].
Proof.
  intros Hl Hd fn i.
  assert (Hfn : fileNameOf i = fn) by now apply fileNameOf_postIdOf.
  split; [|split; [exact Hfn|]].
  - unfold fileNameOf, fn in Hfn.
    apply (app_inv_tail (lit ".md")).
    now rewrite <- !app_assoc.
  - intros matter process fs infos Hin Hrun. split.
    + apply getPostInfos_inv in Hrun.
      destruct (Forall2_In_l _ _ _ _ Hrun Hin) as [info [Hi [r [_ ->]]]].
      exists {| id := postIdOf fn; intro := introOf (content r);
                info_data := data r |}.
      split; [assumption|reflexivity].
    + now rewrite reads_getPostById, Hfn.
Qed.

Lemma post_id_roundtrip_witness :
  let d := lit "20230921" in
  let s := lit "EF-Core" in
  let i := postIdOf (stemOf d s ++ lit ".md") in
  year i ++ month i ++ day i ++ [HYPHEN] ++ slug i = lit "20230921-EF-Core" /\
  fileNameOf i = lit "20230921-EF-Core.md" /\
  (exists info, In info demoInfos /\ id info = i) /\
  reads (getPostById plainMatter echoProcess i) demoFs =
    [ReadFile (lit "posts/20230921-EF-Core.md")].
Proof.
  intros d s i.
  destruct (post_id_roundtrip d s eq_refl eq_refl) as (H1 & H2 & H3).
  split; [exact H1|split; [exact H2|]].
  apply (H3 plainMatter echoProcess demoFs demoInfos).
  - vm_compute. right. right. now left.
  - reflexivity.
Defined.

(** C2. When the posts directory holds post files with pairwise different
    eight-digit date prefixes and every file can be read and parsed, the
    listing returns one summary per file, each summary dated strictly
    after all the summaries that follow it: newest first. *)
Theorem listing_newest_first
    (matter : jsstring -> exn + MatterFile) (fs : Fs.t) (names : list jsstring) :
  fs postsDir = Some (Fs.Dir names) ->
  Forall (fun fn => isPostFileName fn = true) names ->
  NoDup (map datePrefix names) ->
  (forall fn, In fn names -> exists r, run (readMatter matter fn) fs = inr r) ->
  exists infos,
    run (getPostInfosOrderedByDateDesc matter) fs = inr infos /\
    length infos = length names /\
    StronglySorted (fun a b => earlier (id b) (id a)) infos.
Proof.
  intros Hdir Hnames Hnd Hread.
  destruct (getPostInfos_total matter fs names Hdir Hread) as [infos Hrun].
  exists infos. split; [exact Hrun|].
  pose proof (getPostInfos_inv _ _ _ Hrun) as Hinv.
  pose proof (fileNames_permutation fs names Hdir) as Hperm.
  split.
  - rewrite <- (Forall2_length Hinv). symmetry. now apply Permutation_length.
  - eapply StronglySorted_Forall2 with
      (R := fun x y => earlier (postIdOf y) (postIdOf x)); [|exact Hinv|].
    + intros x y x' y' [rx [_ ->]] [ry [_ ->]] H. exact H.
    + eapply StronglySorted_distinct with
        (R := fun x y => JS.leb y x = true)
        (P := fun fn => isPostFileName fn = true) (key := datePrefix).
      * intros x y Hx Hy Hne Hle. apply leb_earlier; auto.
      * eapply Permutation_Forall; eassumption.
      * eapply Permutation_NoDup; [|exact Hnd]. now apply Permutation_map.
      * apply fileNames_sorted.
Qed.

Lemma listing_newest_first_witness :
  exists infos,
    run (getPostInfosOrderedByDateDesc plainMatter) demoFs = inr infos /\
    length infos = 3 /\
    StronglySorted (fun a b => earlier (id b) (id a)) infos.
Proof.
  apply (listing_newest_first plainMatter demoFs
           [lit "20230921-EF-Core.md"; lit "20250703-Views.md";
            lit "20231103-Deep-dive.md"]).
  - reflexivity.
  - repeat constructor.
  - repeat constructor; vm_compute; intuition discriminate.
  - intros fn [<-|[<-|[<-|[]]]]; eexists; vm_compute; reflexivity.
Defined.

(** C9. A post whose body contains no line break gets the empty string as
    its intro in the listing. *)
Theorem intro_empty_without_line_break
    (matter : jsstring -> exn + MatterFile) (fs : Fs.t) (infos : list PostInfo) :
  run (getPostInfosOrderedByDateDesc matter) fs = inr infos ->
  Forall2 (fun fn info =>
             forall r, run (readMatter matter fn) fs = inr r ->
                       ~ In LF (content r) -> intro info = [])
          (fileNames fs) infos.
Proof.
  intros Hrun. apply getPostInfos_inv in Hrun.
  eapply Forall2_impl; [|exact Hrun].
  intros fn info [r [Hr ->]] r' Hr' Hno. cbn [intro].
  rewrite Hr in Hr'. injection Hr' as <-.
  now apply introOf_no_line_break.
Qed.

Lemma intro_empty_without_line_break_witness :
  exists info,
    nth_error demoInfos 2 = Some info /\
    id info = postIdOf (lit "20230921-EF-Core.md") /\ intro info = [].
Proof.
  pose proof (intro_empty_without_line_break plainMatter demoFs demoInfos eq_refl) as H.
  change (fileNames demoFs) with
    [lit "20250703-Views.md"; lit "20231103-Deep-dive.md"; lit "20230921-EF-Core.md"] in H.
  destruct demoInfos as [|i0 [|i1 [|i2 rest]]] eqn:E; try discriminate.
  inversion H as [|? ? ? ? _ H1]; subst. inversion H1 as [|? ? ? ? _ H2]; subst.
  inversion H2 as [|? ? ? ? H3 _]; subst.
  exists i2. split; [reflexivity|]. split.
  - vm_compute in E. now injection E as _ _ <- _.
  - apply (H3 {| content := lit "One line only."; data := noData |}).
    + reflexivity.
    + vm_compute. intuition discriminate.
Defined.

(** C3. The intro of a summary is the body from its start up to and
    including the first line break after the leading whitespace.  On a body
    that starts with a blank line, as the body of a post that leaves a
    blank line after its front matter does, the listing returns the blank
    line and the first line without the line break that ends it: the
    position of the line break is counted in the trimmed body and used in
    the untrimmed one. *)
Theorem intro_misses_line_break :
  introOf demoBody = [LF] ++ lit "At times." /\
  introSpec demoBody = [LF] ++ lit "At times." ++ [LF] /\
  introSpecTrimmed demoBody = lit "At times." ++ [LF] /\
  introOf demoBody <> introSpec demoBody /\
  introOf demoBody <> introSpecTrimmed demoBody /\
  exists info, nth_error demoInfos 0 = Some info /\
               id info = postIdOf (lit "20250703-Views.md") /\
               intro info = [LF] ++ lit "At times.".
Proof.
  repeat split; try reflexivity; try (vm_compute; discriminate).
  eexists. repeat split; reflexivity.
Qed.

(** Without leading whitespace the intro is the first line with its line
    break, in both readings of the specification. *)
Lemma introOf_without_leading_whitespace (content : jsstring) :
  trimStart content = content ->
  introOf content = introSpec content /\
  introOf content = introSpecTrimmed content.
Proof.
  intros H. unfold introOf, introSpec, introSpecTrimmed.
  rewrite H, Nat.sub_diag. split; reflexivity.
Qed.

(** C10. [getPostById] reads exactly the file at the path joined from the
    posts directory and the four fields of the identifier as they come;
    the route guard accepts an identifier by its year, month and day alone,
    whatever the slug is; and there is an identifier that the guard accepts
    and for which the file read lies outside the posts directory, its text
    being parsed and rendered as a post. *)
Theorem getPostById_path_unchecked :
  (forall matter process fs args,
     reads (getPostById matter process args) fs =
       [ReadFile (Path.join postsDir
          (year args ++ month args ++ day args ++ [HYPHEN] ++ slug args ++
           lit ".md"))]) /\
  (forall y m d s,
     isValidPostId [y; m; d; s] = true <->
     (length y = 4 /\ forallb isDigit y = true) /\
     (length m = 2 /\ forallb isDigit m = true) /\
     (length d = 2 /\ forallb isDigit d = true)) /\
  (forall y m d s s',
     isValidPostId [y; m; d; s] = isValidPostId [y; m; d; s']) /\
  exists args,
    isValidPostId [year args; month args; day args; slug args] = true /\
    Path.join postsDir (fileNameOf args) = lit "README.md" /\
    insidePostsDir (Path.join postsDir (fileNameOf args)) = false /\
    forall matter process fs text,
      fs (lit "README.md") = Some (Fs.File text) ->
      run (getPostById matter process args) fs =
        match matter text with
        | inl e => inl e
        | inr r =>
            match process (content r) with
            | inl e => inl e
            | inr postHtml => inr {| html := postHtml; post_data := data r |}
            end
        end.
Proof.
  split; [|split; [|split]].
  - intros. apply reads_getPostById.
  - intros y m d s. cbn [isValidPostId].
    rewrite !andb_true_iff, !Nat.eqb_eq. tauto.
  - reflexivity.
  - exists {| year := lit "2025"; month := lit "07"; day := lit "03";
              slug := lit "x/../../README" |}.
    repeat split; try reflexivity.
    intros matter process fs text Hfs.
    rewrite run_getPostById, run_readMatter.
    change (Path.join postsDir _) with (lit "README.md").
    now rewrite Hfs.
Qed.

Lemma getPostById_path_unchecked_witness :
  exists args,
    isValidPostId [year args; month args; day args; slug args] = true /\
    insidePostsDir (Path.join postsDir (fileNameOf args)) = false /\
    run (getPostById plainMatter echoProcess args) demoFs =
      inr {| html := lit "Not a post."; post_data := noData |}.
Proof.
  destruct getPostById_path_unchecked as (_ & _ & _ & args & Hv & _ & Hout & Hrun).
  exists args. split; [exact Hv|]. split; [exact Hout|].
  apply (Hrun plainMatter echoProcess demoFs (lit "Not a post.")).
  reflexivity.
Defined.

(* ================================================================== *)
(** * Facts about the renderer *)
(* ================================================================== *)

Lemma eqb_eq (a b : jsstring) : JS.eqb a b = true <-> a = b.
Proof.
  revert b; induction a as [|x a IH]; destruct b as [|y b]; simpl;
    try (split; (discriminate || reflexivity)).
  rewrite andb_true_iff, N.eqb_eq, IH.
  split; [intros [-> ->]; reflexivity|intros [= -> ->]; auto].
Qed.

Lemma eqb_refl (a : jsstring) : JS.eqb a a = true.
Proof. now apply eqb_eq. Qed.

Lemma isUsed_In (used : list jsstring) (anchor : jsstring) :
  isUsed used anchor = true <-> In anchor used.
Proof.
  unfold isUsed. rewrite existsb_exists. split.
  - intros [x [Hx He]]. apply eqb_eq in He. now subst.
  - intros H. exists anchor. split; [assumption|apply eqb_refl].
Qed.

(** ** Decimal numbers and suffixes *)

Lemma lit_inj (s t : string) : lit s = lit t -> s = t.
Proof.
  unfold lit. intros H.
  rewrite <- (string_of_list_ascii_of_string s),
          <- (string_of_list_ascii_of_string t).
  f_equal.
  revert H. generalize (list_ascii_of_string s) (list_ascii_of_string t).
  intros l; induction l as [|a l IH]; intros [|b l']; simpl; try discriminate;
    [reflexivity|].
  intros [= Hab Hl]. f_equal; [|now apply IH].
  rewrite <- (ascii_N_embedding a), <- (ascii_N_embedding b). now f_equal.
Qed.

Lemma decimal_inj (n m : N) : decimal n = decimal m -> n = m.
Proof.
  unfold decimal. intros H. apply lit_inj in H.
  apply (f_equal NilEmpty.uint_of_string) in H.
  rewrite !NilEmpty.usu in H. injection H as H.
  now apply DecimalN.Unsigned.to_uint_inj.
Qed.

Lemma withSuffix_inj (base : jsstring) (n m : N) :
  withSuffix base n = withSuffix base m -> n = m.
Proof.
  unfold withSuffix. intros H.
  apply app_inv_head in H. simpl in H. injection H as H.
  now apply decimal_inj.
Qed.

Lemma withSuffix_neq (base : jsstring) (n : N) : withSuffix base n <> base.
Proof.
  unfold withSuffix. intros H.
  apply (f_equal (@length codeunit)) in H.
  rewrite length_app in H. simpl in H. lia.
Qed.

(** ** The collision rule returns an anchor that is not in use *)

Lemma firstUnused_fresh (fuel : nat) (used : list jsstring) (base : jsstring) :
  forall (n : N) (seen : list jsstring),
    NoDup seen -> incl seen used ->
    (forall m, (n <= m)%N -> ~ In (withSuffix base m) seen) ->
    length used <= length seen + fuel ->
    ~ In (firstUnused fuel used base n) used.
Proof.
  induction fuel as [|fuel IH]; intros n seen Hnd Hincl Hseen Hlen; simpl.
  - intros Hin.
    assert (Hnd' : NoDup (withSuffix base n :: seen)).
    { constructor; [apply Hseen; lia|assumption]. }
    assert (Hincl' : incl (withSuffix base n :: seen) used).
    { intros x [<-|Hx]; [assumption|now apply Hincl]. }
    pose proof (NoDup_incl_length Hnd' Hincl') as Hle. simpl in Hle. lia.
  - destruct (isUsed used (withSuffix base n)) eqn:E.
    + apply isUsed_In in E.
      apply (IH (N.succ n) (withSuffix base n :: seen)).
      * constructor; [apply Hseen; lia|assumption].
      * intros x [<-|Hx]; [assumption|now apply Hincl].
      * intros m Hm [Heq|Hin].
        -- apply withSuffix_inj in Heq. lia.
        -- apply (Hseen m); [lia|assumption].
      * simpl. lia.
    + intros Hin. apply isUsed_In in Hin. congruence.
Qed.

Lemma uniqueAnchor_fresh (used : list jsstring) (base : jsstring) :
  ~ In (uniqueAnchor used base) used.
Proof.
  unfold uniqueAnchor. destruct (isUsed used base) eqn:E.
  - apply isUsed_In in E.
    apply (firstUnused_fresh (length used) used base 1%N [base]).
    + repeat constructor. intros [].
    + intros x [<-|[]]. assumption.
    + intros m _ [Heq|[]]. symmetry in Heq. now apply withSuffix_neq in Heq.
    + simpl. lia.
  - intros Hin. apply isUsed_In in Hin. congruence.
Qed.

(** An anchor that is not in use is taken as it is. *)
Lemma uniqueAnchor_unused (used : list jsstring) (base : jsstring) :
  ~ In base used -> uniqueAnchor used base = base.
Proof.
  intros H. unfold uniqueAnchor.
  destruct (isUsed used base) eqn:E; [|reflexivity].
  apply isUsed_In in E. contradiction.
Qed.

(** ** Stage 3 gives every heading an anchor of its own *)

Lemma slugNode_Element (used : list jsstring) (tagName : jsstring)
    (properties : list (jsstring * jsstring)) (children : list node) :
  slugNode used (Element tagName properties children) =
  if isHeading tagName then
    let anchor :=
      uniqueAnchor used (anchorOf (textOf (Element tagName properties children))) in
    let (used', children') := slugNodes (anchor :: used) children in
    (used', Element tagName (setProp (lit "id") anchor properties) children')
  else
    let (used', children') := slugNodes used children in
    (used', Element tagName properties children').
Proof. reflexivity. Qed.

Lemma getProp_setProp (name value : jsstring) (props : list (jsstring * jsstring)) :
  getProp name (setProp name value props) = Some value.
Proof.
  unfold getProp, setProp. cbn [find fst]. now rewrite eqb_refl.
Qed.

Lemma headingIdsOf_Element (tagName : jsstring)
    (properties : list (jsstring * jsstring)) (children : list node) :
  headingIdsOf (Element tagName properties children) =
  (if isHeading tagName then
     match getProp (lit "id") properties with
     | Some anchor => [anchor]
     | None => []
     end
   else []) ++ headingIds children.
Proof. reflexivity. Qed.

Lemma slugNodes_slugged (ns : list node) :
  Forall (fun n => forall used,
            slugged used (headingCountOf n) (fst (slugNode used n))
                    (headingIdsOf (snd (slugNode used n)))) ns ->
  forall used,
    slugged used (headingCount ns) (fst (slugNodes used ns))
            (headingIds (snd (slugNodes used ns))).
Proof.
  induction 1 as [|n ns Hn _ IH]; intros used.
  - repeat split. auto.
  - cbn [slugNodes]. specialize (Hn used).
    destruct (slugNode used n) as [used1 n'].
    specialize (IH used1).
    destruct (slugNodes used1 ns) as [used2 ns'].
    cbn [fst snd] in *.
    destruct Hn as (E1 & L1 & N1), IH as (E2 & L2 & N2).
    unfold headingIds, headingCount in *. cbn [map concat list_sum].
    repeat split.
    + rewrite E2, E1, rev_app_distr. now rewrite app_assoc.
    + rewrite length_app. simpl list_sum. lia.
    + auto.
Qed.

Lemma slugNode_slugged (n : node) :
  forall used,
    slugged used (headingCountOf n) (fst (slugNode used n))
            (headingIdsOf (snd (slugNode used n))).
Proof.
  induction n as [tagName properties children IH|value|value] using node_ind;
    intros used; [|repeat split; auto..].
  pose proof (slugNodes_slugged children IH) as IHs. clear IH. rename IHs into IH.
  rewrite slugNode_Element. cbn [headingCountOf].
  fold (headingCount children).
  destruct (isHeading tagName) eqn:Eh.
  - cbv zeta.
    set (anchor := uniqueAnchor used _).
    specialize (IH (anchor :: used)).
    destruct (slugNodes (anchor :: used) children) as [used' children'].
    cbn [fst snd] in *. destruct IH as (E & L & Nd).
    rewrite headingIdsOf_Element, Eh, getProp_setProp.
    repeat split.
    + rewrite E, rev_app_distr. cbn [rev app]. now rewrite <- app_assoc.
    + cbn [app length]. lia.
    + intros Hu. apply Nd. constructor; [apply uniqueAnchor_fresh|assumption].
  - specialize (IH used).
    destruct (slugNodes used children) as [used' children'].
    cbn [fst snd] in *. destruct IH as (E & L & Nd).
    rewrite headingIdsOf_Element, Eh. cbn [app].
    repeat split; auto.
Qed.

Lemma rehypeSlug_slugged (tree : list node) :
  NoDup (headingIds (rehypeSlug tree)) /\
  length (headingIds (rehypeSlug tree)) = headingCount tree.
Proof.
  unfold rehypeSlug.
  destruct (slugNodes_slugged tree) with (used := @nil jsstring) as (E & L & Nd).
  { apply Forall_forall. intros n _. apply slugNode_slugged. }
  split; [|exact L].
  rewrite app_nil_r in E.
  rewrite <- (rev_involutive (headingIds _)), <- E.
  apply NoDup_rev, Nd. constructor.
Qed.

(** ** The later stages keep the anchors *)

Lemma headingIds_map (f : node -> node) (ns : list node) :
  Forall (fun n => headingIdsOf (f n) = headingIdsOf n) ns ->
  headingIds (map f ns) = headingIds ns.
Proof.
  unfold headingIds. induction 1 as [|n ns Hn _ IH]; [reflexivity|].
  cbn [map concat]. now rewrite Hn, IH.
Qed.

Lemma headingIdsOf_autolinkNode (n : node) :
  headingIdsOf (autolinkNode n) = headingIdsOf n.
Proof.
  induction n as [tagName properties children IH|value|value] using node_ind;
    try reflexivity.
  apply (headingIds_map autolinkNode) in IH.
  cbn [autolinkNode]. rewrite (headingIdsOf_Element tagName properties children).
  destruct (isHeading tagName) eqn:Eh.
  - destruct (getProp (lit "id") properties) as [anchor|] eqn:Ep.
    + rewrite headingIdsOf_Element, Eh, Ep. f_equal.
      unfold headingIds at 1. cbn [map concat].
      rewrite headingIdsOf_Element. cbn [isHeading existsb JS.eqb app].
      rewrite app_nil_r. exact IH.
    + rewrite headingIdsOf_Element, Eh, Ep. now f_equal.
  - rewrite headingIdsOf_Element, Eh. now f_equal.
Qed.

Lemma headingIds_rehypeAutolinkHeadings (tree : list node) :
  headingIds (rehypeAutolinkHeadings tree) = headingIds tree.
Proof.
  apply headingIds_map, Forall_forall. intros n _.
  apply headingIdsOf_autolinkNode.
Qed.

Section HighlightingFacts.

Variable highlighter : jsstring -> jsstring -> option (list node).

(** Stage 5 either goes on below an element or replaces the code of a
    fenced block by its markup. *)
Lemma prettyNode_Element (tagName : jsstring)
    (properties : list (jsstring * jsstring)) (children : list node) :
  prettyNode highlighter (Element tagName properties children) =
    Element tagName properties (map (prettyNode highlighter) children) \/
  exists codeProperties code lang markup,
    children = [Element (lit "code") codeProperties [Text code]] /\
    tagName = lit "pre" /\
    languageOf codeProperties = Some lang /\
    highlighter lang code = Some markup /\
    prettyNode highlighter (Element tagName properties children) =
      Element tagName properties [Element (lit "code") codeProperties markup].
Proof.
  destruct children as [|[codeTag codeProperties [|[| code |] [|]]| |] [|]];
    try (left; reflexivity).
  cbn [prettyNode].
  destruct (JS.eqb tagName (lit "pre")) eqn:Et;
    [|left; reflexivity].
  destruct (JS.eqb codeTag (lit "code")) eqn:Ec;
    [|left; reflexivity].
  apply eqb_eq in Et, Ec. subst.
  cbn [andb].
  destruct (languageOf codeProperties) as [lang|] eqn:El; [|left; reflexivity].
  destruct (highlighter lang code) as [markup|] eqn:Eh; [|left; reflexivity].
  right. exists codeProperties, code, lang, markup. auto.
Qed.

Hypothesis markup_without_headings :
  forall lang code markup,
    highlighter lang code = Some markup -> headingIds markup = [].

Lemma headingIdsOf_prettyNode (n : node) :
  headingIdsOf (prettyNode highlighter n) = headingIdsOf n.
Proof.
  induction n as [tagName properties children IH|value|value] using node_ind;
    try reflexivity.
  apply (headingIds_map (prettyNode highlighter)) in IH.
  destruct (prettyNode_Element tagName properties children)
    as [->|(cp & code & lang & markup & -> & -> & _ & Hm & ->)].
  - rewrite !headingIdsOf_Element. now f_equal.
  - rewrite !headingIdsOf_Element. f_equal.
    unfold headingIds at 1 2. cbn [map concat].
    rewrite !headingIdsOf_Element.
    now rewrite (markup_without_headings _ _ _ Hm).
Qed.

Lemma headingIds_transform (tree : list node) :
  headingIds (transform highlighter tree) = headingIds (rehypeSlug tree).
Proof.
  unfold transform, rehypePrettyCode.
  rewrite headingIds_map.
  - apply headingIds_rehypeAutolinkHeadings.
  - apply Forall_forall. intros n _. apply headingIdsOf_prettyNode.
Qed.

End HighlightingFacts.

Lemma firstUnused_suffix (fuel : nat) (used : list jsstring) (base : jsstring) (n : N) :
  exists m, (n <= m)%N /\ firstUnused fuel used base n = withSuffix base m.
Proof.
  revert n; induction fuel as [|fuel IH]; intros n; simpl.
  - exists n. split; [lia|reflexivity].
  - destruct (isUsed used (withSuffix base n)).
    + destruct (IH (N.succ n)) as [m [Hm E]]. exists m. split; [lia|exact E].
    + exists n. split; [lia|reflexivity].
Qed.

Lemma demoHighlighter_markup (lang code : jsstring) (markup : list node) :
  demoHighlighter lang code = Some markup -> headingIds markup = [].
Proof.
  unfold demoHighlighter. destruct (JS.eqb lang (lit "ts")); [|discriminate].
  now intros [= <-].
Qed.

(* ================================================================== *)
(** * The properties of the renderer *)
(* ================================================================== *)

(** C6. In a rendered document every heading has an anchor id and no two
    headings have the same one, whatever their texts are; an anchor that
    is already in use is given a numeric suffix. *)
Theorem heading_anchors_unique
    (highlighter : jsstring -> jsstring -> option (list node))
    (tree : list node) :
  (forall lang code markup,
     highlighter lang code = Some markup -> headingIds markup = []) ->
  NoDup (headingIds (transform highlighter tree)) /\
  length (headingIds (transform highlighter tree)) = headingCount tree /\
  forall used base,
    In base used ->
    ~ In (uniqueAnchor used base) used /\
    exists n, (1 <= n)%N /\ uniqueAnchor used base = withSuffix base n.
Proof.
  intros Hm. rewrite (headingIds_transform highlighter Hm).
  destruct (rehypeSlug_slugged tree) as [Hnd Hlen].
  repeat split; try assumption.
  - apply uniqueAnchor_fresh.
  - apply isUsed_In in H. unfold uniqueAnchor. rewrite H.
    apply firstUnused_suffix.
Qed.

Lemma heading_anchors_unique_witness :
  headingIds (transform demoHighlighter demoTree) = [lit "intro"; lit "intro-1"] /\
  NoDup (headingIds (transform demoHighlighter demoTree)) /\
  length (headingIds (transform demoHighlighter demoTree)) = 2 /\
  uniqueAnchor [lit "intro"] (lit "intro") = lit "intro-1".
Proof.
  destruct (heading_anchors_unique demoHighlighter demoTree demoHighlighter_markup)
    as (Hnd & Hlen & Hsuffix).
  split; [reflexivity|]. split; [exact Hnd|]. split; [exact Hlen|].
  destruct (Hsuffix [lit "intro"] (lit "intro")) as [_ [n [_ E]]].
  - now left.
  - reflexivity.
Defined.

(** C7. A heading with the text "Hello, World!" gets the anchor id
    hello-world, and its content is wrapped in a link to #hello-world. *)
Theorem hello_world_anchor
    (highlighter : jsstring -> jsstring -> option (list node))
    (tagName : jsstring) (after : list node) :
  isHeading tagName = true ->
  anchorOf (lit "Hello, World!") = lit "hello-world" /\
  hd_error (transform highlighter
              (Element tagName [] [Text (lit "Hello, World!")] :: after)) =
    Some (Element tagName [(lit "id", lit "hello-world")]
            [Element (lit "a") [(lit "href", lit "#hello-world")]
               [Text (lit "Hello, World!")]]).
Proof.
  intros Hh. split; [reflexivity|].
  unfold transform, rehypeSlug. cbn [slugNodes].
  rewrite slugNode_Element, Hh. cbv zeta.
  change (uniqueAnchor [] _) with (lit "hello-world").
  cbn [slugNodes slugNode].
  destruct (slugNodes [lit "hello-world"] after) as [used' after'].
  cbn [snd rehypeAutolinkHeadings rehypePrettyCode map hd_error].
  f_equal.
  cbn [autolinkNode map]. rewrite Hh, getProp_setProp.
  destruct (prettyNode_Element highlighter tagName
              (setProp (lit "id") (lit "hello-world") [])
              [Element (lit "a") [(lit "href", lit "#" ++ lit "hello-world")]
                 [Text (lit "Hello, World!")]])
    as [->|(cp & code & lang & markup & Hc & _)].
  - reflexivity.
  - discriminate Hc.
Qed.

Lemma hello_world_anchor_witness :
  hd_error (transform demoHighlighter
              [Element (lit "h1") [] [Text (lit "Hello, World!")]]) =
    Some (Element (lit "h1") [(lit "id", lit "hello-world")]
            [Element (lit "a") [(lit "href", lit "#hello-world")]
               [Text (lit "Hello, World!")]]).
Proof.
  apply (hello_world_anchor demoHighlighter (lit "h1") []).
  reflexivity.
Defined.

(* ================================================================== *)
(** * Further properties of the identifiers *)
(* ================================================================== *)

Lemma slice_nat (s : jsstring) (a b : nat) :
  a <= b ->
  slice s (Z.of_nat a) (Z.of_nat b) = firstn (b - a) (skipn a s).
Proof.
  intros Hab. unfold slice.
  destruct (Z.ltb_spec (Z.of_nat a) 0) as [H|_]; [lia|].
  destruct (Z.ltb_spec (Z.of_nat b) 0) as [H|_]; [lia|].
  set (len := length s).
  destruct (Nat.le_gt_cases a len) as [Ha|Ha].
  - replace (Z.min (Z.of_nat a) (Z.of_nat len)) with (Z.of_nat a) by lia.
    rewrite Nat2Z.id.
    destruct (Nat.le_gt_cases b len) as [Hb|Hb].
    + replace (Z.min (Z.of_nat b) (Z.of_nat len)) with (Z.of_nat b) by lia.
      f_equal. lia.
    + replace (Z.min (Z.of_nat b) (Z.of_nat len)) with (Z.of_nat len) by lia.
      assert (Hl : length (skipn a s) = len - a) by apply length_skipn.
      rewrite !firstn_all2; trivial; lia.
  - replace (Z.min (Z.of_nat a) (Z.of_nat len)) with (Z.of_nat len) by lia.
    replace (Z.min (Z.of_nat b) (Z.of_nat len)) with (Z.of_nat len) by lia.
    rewrite Z.sub_diag, Nat2Z.id. simpl firstn.
    rewrite (skipn_all2 s) by (fold len; lia).
    now rewrite firstn_nil.
Qed.

Lemma firstn_plus {A} (n m : nat) (l : list A) :
  firstn (n + m) l = firstn n l ++ firstn m (skipn n l).
Proof.
  revert l; induction n as [|n IH]; intros [|x l]; simpl;
    try reflexivity.
  - now rewrite firstn_nil.
  - now rewrite IH.
Qed.

(** The year, month and day of a date are its first eight code units. *)
Lemma slices_firstn (d : jsstring) :
  slice d 0 4 ++ slice d 4 6 ++ slice d 6 8 = firstn 8 d.
Proof.
  change (slice d 0 4) with (slice d (Z.of_nat 0) (Z.of_nat 4)).
  change (slice d 4 6) with (slice d (Z.of_nat 4) (Z.of_nat 6)).
  change (slice d 6 8) with (slice d (Z.of_nat 6) (Z.of_nat 8)).
  rewrite (slice_nat d 0 4), (slice_nat d 4 6), (slice_nat d 6 8) by lia.
  change (4 - 0) with 4. change (6 - 4) with 2. change (8 - 6) with 2.
  change (skipn 0 d) with d.
  change 8 with (4 + (2 + 2)).
  rewrite (firstn_plus 4 (2 + 2) d), (firstn_plus 2 2 (skipn 4 d)).
  now rewrite skipn_skipn.
Qed.

Lemma split_head_no_sep (sep : codeunit) (s seg : jsstring) (segs : list jsstring) :
  split sep s = seg :: segs -> ~ In sep seg.
Proof.
  revert seg segs; induction s as [|c s IH]; intros seg segs; simpl.
  - intros [= <- <-]. intros [].
  - destruct (N.eqb_spec c sep) as [->|Hne].
    + intros [= <- _]. intros [].
    + destruct (split sep s) as [|w ws] eqn:E.
      * intros [= <- _]. intros [H|[]]. congruence.
      * intros [= <- _]. intros [H|H]; [congruence|].
        now apply (IH w ws).
Qed.

Lemma split_no_sep (sep : codeunit) (s : jsstring) :
  ~ In sep s -> split sep s = [s].
Proof.
  induction s as [|c s IH]; intros H; simpl; [reflexivity|].
  destruct (N.eqb_spec c sep) as [->|Hne].
  - exfalso. apply H. now left.
  - rewrite IH; [reflexivity|]. intros Hin. apply H. now right.
Qed.

Lemma not_In_forallb (sep : codeunit) (d : jsstring) :
  ~ In sep d -> forallb (fun c => negb (c =? sep)%N) d = true.
Proof.
  intros H. apply forallb_forall. intros c Hc.
  apply negb_true_iff, N.eqb_neq. intros ->. contradiction.
Qed.

Lemma postIdOf_general (d s : jsstring) :
  ~ In HYPHEN d ->
  postIdOf (d ++ [HYPHEN] ++ s ++ lit ".md") =
  {| year := slice d 0 4; month := slice d 4 6; day := slice d 6 8; slug := s |}.
Proof.
  intros Hd. unfold postIdOf.
  replace (d ++ [HYPHEN] ++ s ++ lit ".md") with ((d ++ [HYPHEN] ++ s) ++ lit ".md")
    by now rewrite <- !app_assoc.
  rewrite replace_md_suffix_app. simpl ([HYPHEN] ++ s).
  rewrite split_app_sep by now apply not_In_forallb.
  now rewrite join_split.
Qed.

Lemma fileNameOf_ends_md (i : PostId) : endsWith (fileNameOf i) (lit ".md") = true.
Proof.
  unfold fileNameOf.
  rewrite !app_assoc. apply endsWith_app.
Qed.

Lemma fileNameOf_slices (d s : jsstring) :
  fileNameOf {| year := slice d 0 4; month := slice d 4 6; day := slice d 6 8;
                slug := s |} =
  firstn 8 d ++ [HYPHEN] ++ s ++ lit ".md".
Proof.
  unfold fileNameOf. cbn [year month day slug].
  rewrite <- slices_firstn. now rewrite <- !app_assoc.
Qed.

(** A file name that comes back from its identifier has a first part of
    at most eight code units, a hyphen, a rest and [.md]. *)
Lemma fileName_roundtrip_inv (fn : jsstring) :
  fileNameOf (postIdOf fn) = fn ->
  exists d s, fn = d ++ [HYPHEN] ++ s ++ lit ".md" /\
              length d <= 8 /\ ~ In HYPHEN d.
Proof.
  intros Hrt.
  assert (Hmd : endsWith fn (lit ".md") = true)
    by (rewrite <- Hrt; apply fileNameOf_ends_md).
  apply endsWith_inv in Hmd. change (length (lit ".md")) with 3 in Hmd.
  set (stem := firstn (length fn - 3) fn) in *.
  assert (Hrep : replace_md_suffix fn = stem).
  { rewrite Hmd. apply replace_md_suffix_app. }
  unfold postIdOf in Hrt. rewrite Hrep in Hrt.
  pose proof (join_split HYPHEN stem) as Hjoin.
  destruct (split HYPHEN stem) as [|seg0 rest] eqn:Es;
    [now apply split_not_nil in Es|].
  pose proof (split_head_no_sep _ _ _ _ Es) as Hno.
  rewrite fileNameOf_slices in Hrt.
  assert (Hstem : firstn 8 seg0 ++ [HYPHEN] ++ JS.join [HYPHEN] rest = stem).
  { apply (app_inv_tail (lit ".md")). rewrite <- Hmd, <- Hrt.
    now rewrite <- !app_assoc. }
  destruct rest as [|seg1 rest].
  - exfalso. cbn [JS.join] in Hjoin, Hstem. subst seg0.
    rewrite app_nil_r in Hstem.
    apply Hno. rewrite <- Hstem. apply in_or_app. right. now left.
  - assert (Hj : stem = seg0 ++ [HYPHEN] ++ JS.join [HYPHEN] (seg1 :: rest)).
    { rewrite <- Hjoin. reflexivity. }
    rewrite Hj in Hstem. apply app_inv_tail in Hstem.
    exists seg0, (JS.join [HYPHEN] (seg1 :: rest)).
    split; [|split; [|assumption]].
    + rewrite Hmd, Hj. now rewrite <- !app_assoc.
    + rewrite <- Hstem. rewrite length_firstn. lia.
Qed.

(** X1. The file name rebuilt from the identifier of a file name is that
    file name exactly when the name is a first part of at most eight code
    units without hyphen, a hyphen, a rest and [.md]. *)
Theorem fileName_roundtrip_iff (fn : jsstring) :
  fileNameOf (postIdOf fn) = fn <->
  exists d s, fn = d ++ [HYPHEN] ++ s ++ lit ".md" /\
              length d <= 8 /\ ~ In HYPHEN d.
Proof.
  split.
  - apply fileName_roundtrip_inv.
  - intros (d & s & -> & Hl & Hno).
    rewrite postIdOf_general by assumption.
    now rewrite fileNameOf_slices, firstn_all2 by assumption.
Qed.

Lemma slices_as_firstn (d : jsstring) :
  slice d 0 4 = firstn 4 d /\
  slice d 4 6 = firstn 2 (skipn 4 d) /\
  slice d 6 8 = firstn 2 (skipn 6 d).
Proof.
  change (slice d 0 4) with (slice d (Z.of_nat 0) (Z.of_nat 4)).
  change (slice d 4 6) with (slice d (Z.of_nat 4) (Z.of_nat 6)).
  change (slice d 6 8) with (slice d (Z.of_nat 6) (Z.of_nat 8)).
  rewrite (slice_nat d 0 4), (slice_nat d 4 6), (slice_nat d 6 8) by lia.
  repeat split; reflexivity.
Qed.

(** The guard accepts the year, month and day cut from a date exactly when
    the date starts with eight digits. *)
Lemma isValidPostId_slices (d s : jsstring) :
  isValidPostId [slice d 0 4; slice d 4 6; slice d 6 8; s] = true <->
  8 <= length d /\ forallb isDigit (firstn 8 d) = true.
Proof.
  rewrite <- (slices_firstn d). rewrite !forallb_app.
  destruct (slices_as_firstn d) as (-> & -> & ->).
  cbn [isValidPostId]. rewrite !andb_true_iff, !Nat.eqb_eq.
  rewrite !length_firstn, !length_skipn.
  split.
  - intros [[[L1 D1] [L2 D2]] [L3 D3]]. repeat split; trivial. lia.
  - intros [L [D1 [D2 D3]]]. repeat split; trivial; lia.
Qed.

Lemma destructure_objectValues (i : PostId) : destructure (objectValues i) = i.
Proof. now destruct i. Qed.

(** The identifier of a post file is accepted by the guard and leads
    back to the file. *)
Lemma postFileName_valid (fn : jsstring) :
  isPostFileName fn = true ->
  isValidPostId (objectValues (postIdOf fn)) = true /\
  fileNameOf (postIdOf fn) = fn.
Proof.
  intros H. apply isPostFileName_inv in H as (d & s & -> & _ & Hl & Hd).
  split; [|now apply fileNameOf_postIdOf].
  rewrite postIdOf_stem by assumption.
  unfold objectValues. cbn [year month day slug].
  apply isValidPostId_slices. rewrite firstn_all2 by lia. split; [lia|assumption].
Qed.

(** X2. The identifier that the listing derives from a file name is
    accepted by the route guard and leads back to the file exactly for the
    file names made of eight digits, a hyphen, a slug and [.md]. *)
Theorem listed_id_valid_iff (fn : jsstring) :
  isValidPostId (objectValues (postIdOf fn)) = true /\
  fileNameOf (postIdOf fn) = fn <->
  isPostFileName fn = true.
Proof.
  split.
  - intros [Hv Hrt].
    apply fileName_roundtrip_inv in Hrt as (d & s & -> & Hl & Hno).
    rewrite postIdOf_general in Hv by assumption.
    unfold objectValues in Hv. cbn [year month day slug] in Hv.
    apply isValidPostId_slices in Hv as [Hl8 Hd].
    rewrite firstn_all2 in Hd by assumption.
    replace (d ++ [HYPHEN] ++ s ++ lit ".md") with (stemOf d s ++ lit ".md")
      by (unfold stemOf; now rewrite <- !app_assoc).
    apply (isPostFileName_intro d s); [lia|assumption].
  - apply postFileName_valid.
Qed.

(* ================================================================== *)
(** * Properties of the pages *)
(* ================================================================== *)

Section PageFacts.

Variable matter : jsstring -> exn + MatterFile.
Variable process : jsstring -> exn + jsstring.
Variable BASE_TITLE : jsstring.

Lemma run_generateStaticParams (fs : Fs.t) :
  run (generateStaticParams matter) fs =
  match run (getPostInfosOrderedByDateDesc matter) fs with
  | inl e => inl e
  | inr infos => inr (map (fun info => objectValues (id info)) infos)
  end.
Proof.
  unfold generateStaticParams. rewrite run_bind.
  now destruct (run (getPostInfosOrderedByDateDesc matter) fs).
Qed.

(** X3. For a posts directory of post files that can all be read and
    parsed, the static parameters are the year, month, day and slug of
    each file, newest first; the route guard accepts each of them, and
    [getPostById] on each reads the file it came from. *)
Theorem static_params_resolve (fs : Fs.t) (names : list jsstring) :
  fs postsDir = Some (Fs.Dir names) ->
  Forall (fun fn => isPostFileName fn = true) names ->
  (forall fn, In fn names -> exists r, run (readMatter matter fn) fs = inr r) ->
  exists params,
    run (generateStaticParams matter) fs = inr params /\
    Forall2 (fun fn p =>
               p = objectValues (postIdOf fn) /\
               isValidPostId p = true /\
               reads (getPostById matter process (destructure p)) fs =
                 [ReadFile (Path.join postsDir fn)])
            (fileNames fs) params.
Proof.
  intros Hdir Hnames Hread.
  destruct (getPostInfos_total matter fs names Hdir Hread) as [infos Hrun].
  exists (map (fun info => objectValues (id info)) infos).
  rewrite run_generateStaticParams, Hrun. split; [reflexivity|].
  pose proof (getPostInfos_inv _ _ _ Hrun) as Hinv.
  assert (Hall : Forall (fun fn => isPostFileName fn = true) (fileNames fs)).
  { eapply Permutation_Forall; [|exact Hnames].
    now apply fileNames_permutation. }
  clear Hrun. induction Hinv as [|fn info fns infos [r [_ ->]] _ IH];
    [constructor|].
  inversion Hall as [|? ? Hfn Hrest]; subst.
  specialize (IH Hrest).
  cbn [map]. constructor; [|exact IH].
  cbn [id].
  apply postFileName_valid in Hfn as [Hv Hrt].
  split; [reflexivity|]. split; [exact Hv|].
  now rewrite destructure_objectValues, reads_getPostById, Hrt.
Qed.

(** X4. The post page raises the not-found signal of the framework
    exactly for the identifiers that the route guard rejects, whatever the
    filesystem holds; for these the page and its metadata read no file,
    and the metadata are the title of the site. *)
Theorem not_found_iff_invalid (fs : Fs.t) (id : list jsstring) :
  (snd (Post matter process id fs) = inl NEXT_NOT_FOUND <->
   isValidPostId id = false) /\
  (isValidPostId id = false ->
   fst (Post matter process id fs) = [] /\
   generateMetadata matter process BASE_TITLE id fs =
     ([], inr {| metadata_title := BASE_TITLE |})).
Proof.
  unfold Post, generateMetadata.
  destruct (isValidPostId id) eqn:Hv; cbn [negb].
  - split; [|discriminate]. split; [|discriminate].
    destruct (getPostById matter process (destructure id) fs) as [tr [e|post]];
      discriminate.
  - split; [split; reflexivity|]. intros _. split; reflexivity.
Qed.


End PageFacts.

(* ================================================================== *)
(** * Further properties of the reader *)
(* ================================================================== *)

Lemma digits_no_slash (d : jsstring) :
  forallb isDigit d = true -> ~ In SLASH d.
Proof.
  intros H Hin. rewrite forallb_forall in H. specialize (H _ Hin).
  discriminate H.
Qed.

Lemma endsWith_no_slash (a name : jsstring) :
  name <> [] -> ~ In SLASH name -> endsWith (a ++ name) [SLASH] = false.
Proof.
  intros Hne Hno. unfold endsWith. rewrite rev_app_distr.
  destruct (rev name) as [|c r] eqn:E.
  - apply (f_equal (@rev codeunit)) in E. rewrite rev_involutive in E.
    now subst.
  - cbn [rev app startsWith].
    destruct (N.eqb_spec SLASH c) as [<-|_]; [|reflexivity].
    exfalso. apply Hno. apply in_rev. rewrite E. now left.
Qed.

(** A name without slash that is not [.] or [..] is joined to the posts
    directory as it is. *)
Lemma join_plain_name (name : jsstring) :
  ~ In SLASH name -> name <> [] -> name <> lit "." -> name <> lit ".." ->
  Path.join postsDir name = postsDir ++ [SLASH] ++ name.
Proof.
  intros Hno Hne Hdot Hdots.
  assert (E0 : JS.eqb name [] = false).
  { destruct (JS.eqb name []) eqn:E; [|reflexivity]. apply eqb_eq in E. contradiction. }
  assert (E1 : JS.eqb name (lit ".") = false).
  { destruct (JS.eqb name (lit ".")) eqn:E; [|reflexivity]. apply eqb_eq in E. contradiction. }
  assert (E2 : JS.eqb name (lit "..") = false).
  { destruct (JS.eqb name (lit "..")) eqn:E; [|reflexivity]. apply eqb_eq in E. contradiction. }
  destruct name as [|c rest] eqn:En; [contradiction|]. rewrite <- En in *.
  assert (Hj : Path.join postsDir name = Path.normalize (postsDir ++ [SLASH] ++ name))
    by (rewrite En; reflexivity).
  rewrite Hj. clear Hj.
  assert (Hsplit : split SLASH (postsDir ++ [SLASH] ++ name) = [postsDir; name]).
  { cbn [app]. rewrite split_app_sep by reflexivity. now rewrite split_no_sep. }
  assert (Hend : endsWith (postsDir ++ [SLASH] ++ name) [SLASH] = false).
  { rewrite app_assoc. apply endsWith_no_slash; [congruence|assumption]. }
  unfold Path.normalize. rewrite Hsplit, Hend.
  cbn [fold_left]. unfold Path.normalizeStep at 2.
  change (JS.eqb postsDir [] || JS.eqb postsDir (lit ".")) with false.
  change (JS.eqb postsDir (lit "..")) with false. cbv iota.
  unfold Path.normalizeStep. rewrite E0, E1, E2. cbn [orb].
  cbn [rev app JS.join].
  reflexivity.
Qed.

Section ReaderFacts.

Variable matter : jsstring -> exn + MatterFile.
Variable process : jsstring -> exn + jsstring.

(** X6. For an identifier that the route guard accepts and whose slug has
    no slash, [getPostById] reads the file of that name in the posts
    directory and no other. *)
Theorem valid_id_without_slash_stays_inside (fs : Fs.t) (y m d s : jsstring) :
  isValidPostId [y; m; d; s] = true -> ~ In SLASH s ->
  let args := {| year := y; month := m; day := d; slug := s |} in
  reads (getPostById matter process args) fs =
    [ReadFile (lit "posts/" ++ y ++ m ++ d ++ [HYPHEN] ++ s ++ lit ".md")] /\
  insidePostsDir (Path.join postsDir (fileNameOf args)) = true.
Proof.
  intros Hv Hs args.
  cbn [isValidPostId] in Hv. rewrite !andb_true_iff, !Nat.eqb_eq in Hv.
  destruct Hv as [[[Ly Dy] [Lm Dm]] [Ld Dd]].
  assert (Hjoin : Path.join postsDir (fileNameOf args) =
                  postsDir ++ [SLASH] ++ fileNameOf args).
  { unfold fileNameOf, args. cbn [year month day slug].
    destruct y as [|c y']; [discriminate|].
    cbn [forallb] in Dy. apply andb_true_iff in Dy as [Dc Dy'].
    assert (Hc : c <> 46%N /\ c <> SLASH).
    { unfold isDigit in Dc. apply andb_true_iff in Dc as [H1 H2].
      apply N.leb_le in H1, H2. unfold SLASH. lia. }
    apply join_plain_name.
    - cbn [app]. intros [H|H]; [now apply Hc|].
      apply in_app_or in H as [H|H]; [now apply digits_no_slash in H|].
      apply in_app_or in H as [H|H]; [now apply digits_no_slash in H|].
      apply in_app_or in H as [H|H]; [now apply digits_no_slash in H|].
      destruct H as [H|H]; [discriminate H|].
      apply in_app_or in H as [H|H]; [contradiction|].
      cbv in H. intuition discriminate.
    - discriminate.
    - cbn [app]. intros [= H _]. now apply Hc.
    - cbn [app]. intros [= H _]. now apply Hc. }
  split.
  - rewrite reads_getPostById, Hjoin. unfold fileNameOf, args.
    cbn [year month day slug]. reflexivity.
  - rewrite Hjoin. unfold insidePostsDir.
    rewrite (app_assoc postsDir). apply startsWith_app.
Qed.

Lemma reads_mapM {A B} (f : A -> M B) (fs : Fs.t) (a : list A) (ys : list B) :
  run (mapM f a) fs = inr ys ->
  reads (mapM f a) fs = concat (map (fun x => reads (f x) fs) a).
Proof.
  revert ys; induction a as [|x a IH]; intros ys H; [reflexivity|].
  cbn [mapM] in *. rewrite run_bind in H. rewrite reads_bind.
  destruct (run (f x) fs) as [e|y]; [discriminate|].
  rewrite run_bind in H. rewrite reads_bind.
  destruct (run (mapM f a) fs) as [e|zs] eqn:Ez; [discriminate|].
  cbn [map concat]. rewrite (IH zs eq_refl).
  unfold reads at 3, ret. cbn [fst]. now rewrite app_nil_r.
Qed.

(** The loop stops at the first element on which the callback throws. *)
Lemma mapM_fails {A B} (f : A -> M B) (fs : Fs.t)
    (good : list A) (bad : A) (rest : list A) (e : exn) :
  Forall (fun x => exists y, run (f x) fs = inr y) good ->
  run (f bad) fs = inl e ->
  run (mapM f (good ++ bad :: rest)) fs = inl e /\
  reads (mapM f (good ++ bad :: rest)) fs =
    concat (map (fun x => reads (f x) fs) (good ++ [bad])).
Proof.
  intros Hgood Hbad. induction Hgood as [|x good [y Hy] _ [IHr IHt]].
  - cbn [app mapM map concat]. rewrite run_bind, reads_bind, Hbad.
    now rewrite !app_nil_r.
  - cbn [app mapM map concat]. rewrite run_bind, reads_bind, Hy.
    rewrite run_bind, reads_bind, IHr, IHt.
    now rewrite app_nil_r.
Qed.

Lemma reads_postInfo (fs : Fs.t) (fn : jsstring) :
  reads (postInfo matter fn) fs = [ReadFile (Path.join postsDir fn)].
Proof.
  unfold postInfo. rewrite reads_bind, reads_readMatter.
  now destruct (run (readMatter matter fn) fs).
Qed.

Lemma reads_postInfos (fs : Fs.t) (l : list jsstring) :
  concat (map (fun fn => reads (postInfo matter fn) fs) l) =
  map (fun fn => ReadFile (Path.join postsDir fn)) l.
Proof.
  induction l as [|fn l IH]; [reflexivity|].
  cbn [map concat]. now rewrite reads_postInfo, IH.
Qed.

Lemma reads_getPostInfos (fs : Fs.t) :
  reads (getPostInfosOrderedByDateDesc matter) fs =
  ReadDir postsDir ::
  match fs postsDir with
  | Some (Fs.Dir _) => reads (mapM (postInfo matter) (fileNames fs)) fs
  | _ => []
  end.
Proof.
  unfold getPostInfosOrderedByDateDesc, fileNames. rewrite reads_bind.
  unfold reads at 1, run at 1, readdirSync. cbn [fst snd].
  now destruct (fs postsDir) as [[|]|].
Qed.

(** X7. A listing that returns has read the directory and then every
    entry of it once, in descending order of the names, and has one
    summary per entry. *)
Theorem listing_reads_each_file_once (fs : Fs.t) (names : list jsstring)
    (infos : list PostInfo) :
  fs postsDir = Some (Fs.Dir names) ->
  run (getPostInfosOrderedByDateDesc matter) fs = inr infos ->
  reads (getPostInfosOrderedByDateDesc matter) fs =
    ReadDir postsDir ::
    map (fun fn => ReadFile (Path.join postsDir fn)) (reverse (sort names)) /\
  Permutation names (reverse (sort names)) /\
  StronglySorted (fun a b => JS.leb b a = true) (reverse (sort names)) /\
  length infos = length names.
Proof.
  intros Hdir Hrun.
  pose proof (fileNames_permutation fs names Hdir) as Hperm.
  pose proof (fileNames_sorted fs) as Hsorted.
  pose proof (getPostInfos_inv _ _ _ Hrun) as Hinv.
  rewrite reads_getPostInfos.
  rewrite run_getPostInfos in Hrun.
  unfold fileNames in *. rewrite Hdir in *.
  repeat split; trivial.
  - f_equal. rewrite (reads_mapM _ _ _ _ Hrun). apply reads_postInfos.
  - rewrite <- (Forall2_length Hinv). symmetry. now apply Permutation_length.
Qed.

(** X8. When a file of the directory cannot be read or parsed, the
    listing ends with the exception of the first such file in descending
    order of the names, having read the files up to it and none after. *)
Theorem listing_fails_at_first_error (fs : Fs.t) (names good rest : list jsstring)
    (bad : jsstring) (e : exn) :
  fs postsDir = Some (Fs.Dir names) ->
  reverse (sort names) = good ++ bad :: rest ->
  (forall fn, In fn good -> exists r, run (readMatter matter fn) fs = inr r) ->
  run (readMatter matter bad) fs = inl e ->
  run (getPostInfosOrderedByDateDesc matter) fs = inl e /\
  reads (getPostInfosOrderedByDateDesc matter) fs =
    ReadDir postsDir ::
    map (fun fn => ReadFile (Path.join postsDir fn)) (good ++ [bad]).
Proof.
  intros Hdir Hsplit Hgood Hbad.
  rewrite run_getPostInfos, reads_getPostInfos.
  unfold fileNames. rewrite Hdir, Hsplit.
  destruct (mapM_fails (postInfo matter) fs good bad rest e) as [Hr Ht].
  - apply Forall_forall. intros fn Hin. destruct (Hgood fn Hin) as [r Hrd].
    rewrite run_postInfo, Hrd. eauto.
  - now rewrite run_postInfo, Hbad.
  - split; [exact Hr|]. f_equal. rewrite Ht. apply reads_postInfos.
Qed.

(** X9. For a directory of post files, [getPostById] on the identifier of
    a summary of the listing finds the file the summary was made from:
    it returns the front-matter data of the summary next to the rendering
    of the body the intro was cut from, and fails only if the processor
    does. *)
Theorem listed_post_resolves (fs : Fs.t) (names : list jsstring)
    (infos : list PostInfo) :
  fs postsDir = Some (Fs.Dir names) ->
  Forall (fun fn => isPostFileName fn = true) names ->
  run (getPostInfosOrderedByDateDesc matter) fs = inr infos ->
  Forall (fun info =>
            exists r,
              info_data info = data r /\ intro info = introOf (content r) /\
              run (getPostById matter process (id info)) fs =
                match process (content r) with
                | inl e => inl e
                | inr postHtml => inr {| html := postHtml; post_data := data r |}
                end) infos.
Proof.
  intros Hdir Hnames Hrun.
  pose proof (getPostInfos_inv _ _ _ Hrun) as Hinv.
  assert (Hall : Forall (fun fn => isPostFileName fn = true) (fileNames fs)).
  { eapply Permutation_Forall; [|exact Hnames].
    now apply fileNames_permutation. }
  clear Hrun. induction Hinv as [|fn info fns infos [r [Hr ->]] _ IH];
    [constructor|].
  inversion Hall as [|? ? Hfn Hrest]; subst.
  constructor; [|now apply IH].
  exists r. cbn [info_data intro id]. repeat split.
  apply postFileName_valid in Hfn as [_ Hrt].
  now rewrite run_getPostById, Hrt, Hr.
Qed.

End ReaderFacts.

(* ================================================================== *)
(** * Further properties of the intro *)
(* ================================================================== *)

Lemma substring_0_firstn (s : jsstring) (e : Z) :
  substring s 0 e =
  firstn (Z.to_nat (Z.min (Z.max e 0) (Z.of_nat (length s)))) s.
Proof.
  unfold substring.
  set (len := Z.of_nat (length s)).
  assert (Hlen : (0 <= len)%Z) by (unfold len; lia).
  replace (Z.min (Z.max 0 0) len) with 0%Z by lia.
  replace (Z.min 0 (Z.min (Z.max e 0) len)) with 0%Z by lia.
  replace (Z.max 0 (Z.min (Z.max e 0) len)) with (Z.min (Z.max e 0) len) by lia.
  now rewrite Z.sub_0_r.
Qed.

Lemma indexOf_from_bounds (c : codeunit) (s : jsstring) (i : Z) :
  indexOf_from i s [c] = (-1)%Z \/
  (i <= indexOf_from i s [c] < i + Z.of_nat (length s))%Z.
Proof.
  revert i; induction s as [|x s IH]; intros i; cbn [indexOf_from startsWith].
  - now left.
  - destruct (c =? x)%N; cbn [andb].
    + right. cbn [length]. lia.
    + destruct (IH (i + 1)%Z) as [H|H]; [now left|right].
      cbn [length]. lia.
Qed.

Lemma trimStart_length (s : jsstring) : length (trimStart s) <= length s.
Proof.
  destruct (trimStart_split s) as [ws [H _]].
  rewrite H at 2. rewrite length_app. lia.
Qed.

(** X10. The intro of a body is a prefix of the body, and it is not
    longer than the body without its leading whitespace. *)
Theorem intro_is_prefix (content : jsstring) :
  (exists rest, content = introOf content ++ rest) /\
  length (introOf content) <= length (trimStart content).
Proof.
  unfold introOf. rewrite substring_0_firstn. split.
  - eexists. symmetry. apply firstn_skipn.
  - rewrite length_firstn. unfold indexOf.
    pose proof (trimStart_length content) as Hl.
    destruct (indexOf_from_bounds LF (trimStart content) 0) as [->|H]; lia.
Qed.

Lemma trimStart_app (ws : jsstring) (c : codeunit) (s : jsstring) :
  forallb isWhiteSpace ws = true -> isWhiteSpace c = false ->
  trimStart (ws ++ c :: s) = c :: s.
Proof.
  intros Hws Hc. induction ws as [|w ws IH]; cbn [app trimStart].
  - now rewrite Hc.
  - cbn [forallb] in Hws. apply andb_true_iff in Hws as [Hw Hws].
    rewrite Hw. now apply IH.
Qed.

(** X11. When the body starts with whitespace, the intro ends before the
    line break of the first line and is cut short by one code unit for
    every code unit of whitespace after the first: it is the whitespace
    and the first line without its last [n - 1] code units, [n] being the
    length of the whitespace.  After one blank line the intro is the
    blank line and the whole first line. *)
Theorem intro_after_leading_whitespace
    (ws : jsstring) (c : codeunit) (line rest : jsstring) :
  forallb isWhiteSpace ws = true -> isWhiteSpace c = false ->
  ~ In LF (c :: line) ->
  1 <= length ws <= length (c :: line) + 1 ->
  introOf (ws ++ (c :: line) ++ LF :: rest) =
    ws ++ firstn (length (c :: line) + 1 - length ws) (c :: line).
Proof.
  intros Hws Hc Hno Hlen.
  rewrite (introOf_first_line (ws ++ (c :: line) ++ LF :: rest) (c :: line) rest);
    [|now apply (trimStart_app ws c (line ++ LF :: rest))|assumption].
  rewrite firstn_app.
  rewrite (firstn_all2 (n := length (c :: line) + 1) ws) by lia.
  f_equal. rewrite firstn_app.
  replace (length (c :: line) + 1 - length ws - length (c :: line)) with 0 by lia.
  cbn [firstn]. now rewrite app_nil_r.
Qed.

Lemma intro_after_leading_whitespace_witness :
  introOf demoBody = [LF] ++ lit "At times.".
Proof.
  apply (intro_after_leading_whitespace [LF] 65%N (lit "t times.")
           ([LF] ++ lit "You can.")).
  - reflexivity.
  - reflexivity.
  - vm_compute. intuition discriminate.
  - vm_compute. lia.
Defined.

(* ================================================================== *)
(** * Further properties of the pages *)
(* ================================================================== *)

Lemma linkHrefs_homeItem (p : PostInfo) (i : N) :
  linkHrefs (homeItem p i) = [hrefOf (id p)].
Proof. reflexivity. Qed.

Lemma linkHrefs_homeItems (infos : list PostInfo) (i : N) :
  concat (map linkHrefs (mapi_from i homeItem infos)) =
  map (fun p => hrefOf (id p)) infos.
Proof.
  revert i; induction infos as [|p infos IH]; intros i; [reflexivity|].
  cbn [mapi_from map concat]. now rewrite linkHrefs_homeItem, IH.
Qed.

Lemma segmentsOf_hrefOf (i : PostId) :
  ~ In SLASH (year i) -> ~ In SLASH (month i) -> ~ In SLASH (day i) ->
  ~ In SLASH (slug i) ->
  segmentsOf (hrefOf i) = objectValues i.
Proof.
  intros Hy Hm Hd Hs. unfold segmentsOf, hrefOf, objectValues.
  cbn [app]. cbn [split]. rewrite N.eqb_refl. cbn [tl].
  rewrite !split_app_sep by now apply not_In_forallb.
  now rewrite split_no_sep.
Qed.

Lemma postFileName_no_slash (fn : jsstring) :
  isPostFileName fn = true -> ~ In SLASH fn ->
  let i := postIdOf fn in
  ~ In SLASH (year i) /\ ~ In SLASH (month i) /\ ~ In SLASH (day i) /\
  ~ In SLASH (slug i).
Proof.
  intros H Hno i. unfold i.
  apply isPostFileName_inv in H as (d & s & -> & _ & Hl & Hd).
  rewrite postIdOf_stem by assumption. cbn [year month day slug].
  destruct (slices_as_firstn d) as (-> & -> & ->).
  repeat split.
  - apply digits_no_slash. now apply forallb_firstn.
  - apply digits_no_slash. now apply forallb_firstn, forallb_skipn.
  - apply digits_no_slash. now apply forallb_firstn, forallb_skipn.
  - intros Hin. apply Hno. unfold stemOf.
    apply in_or_app. left. apply in_or_app. right. apply in_or_app. now right.
Qed.

Section MorePageFacts.

Variable matter : jsstring -> exn + MatterFile.
Variable process : jsstring -> exn + jsstring.

Lemma run_Home (fs : Fs.t) :
  run (Home matter) fs =
  match run (getPostInfosOrderedByDateDesc matter) fs with
  | inl e => inl e
  | inr postInfos =>
      inr (JsxElement (lit "ol")
             [(lit "className", lit "flex flex-col justify-center items-center gap-4")]
             (mapi_from 0 homeItem postInfos))
  end.
Proof.
  unfold Home. rewrite run_bind.
  now destruct (run (getPostInfosOrderedByDateDesc matter) fs).
Qed.

(** X12. For a posts directory of post files that can all be read and
    parsed, the home page has one link per file, newest first; the
    segments of the path of each link are the year, month, day and slug of
    its file, the route guard accepts them, and the file name rebuilt from
    them is the name of the file. *)
Theorem home_links_resolve (fs : Fs.t) (names : list jsstring) :
  fs postsDir = Some (Fs.Dir names) ->
  Forall (fun fn => isPostFileName fn = true) names ->
  Forall (fun fn => ~ In SLASH fn) names ->
  (forall fn, In fn names -> exists r, run (readMatter matter fn) fs = inr r) ->
  exists page,
    run (Home matter) fs = inr page /\
    Forall2 (fun fn href =>
               segmentsOf href = objectValues (postIdOf fn) /\
               isValidPostId (segmentsOf href) = true /\
               fileNameOf (destructure (segmentsOf href)) = fn)
            (fileNames fs) (linkHrefs page).
Proof.
  intros Hdir Hnames Hslash Hread.
  destruct (getPostInfos_total matter fs names Hdir Hread) as [infos Hrun].
  eexists. rewrite run_Home, Hrun. split; [reflexivity|].
  cbn [linkHrefs]. change (JS.eqb (lit "ol") (lit "Link")) with false.
  cbv iota. cbn [app]. rewrite linkHrefs_homeItems.
  pose proof (getPostInfos_inv _ _ _ Hrun) as Hinv.
  pose proof (fileNames_permutation fs names Hdir) as Hperm.
  assert (Hall : Forall (fun fn => isPostFileName fn = true /\ ~ In SLASH fn)
                        (fileNames fs)).
  { eapply Permutation_Forall; [exact Hperm|].
    apply Forall_forall. intros fn Hin. rewrite Forall_forall in Hnames, Hslash.
    auto. }
  clear Hrun Hperm. induction Hinv as [|fn info fns infos [r [_ ->]] _ IH];
    [constructor|].
  inversion Hall as [|? ? [Hfn Hno] Hrest]; subst.
  cbn [map]. constructor; [|now apply IH].
  cbn [id].
  destruct (postFileName_no_slash fn Hfn Hno) as (Hy & Hm & Hd & Hs).
  rewrite segmentsOf_hrefOf by assumption.
  apply postFileName_valid in Hfn as [Hv Hrt].
  split; [reflexivity|]. split; [exact Hv|].
  now rewrite destructure_objectValues.
Qed.

(** X13. For an identifier that the route guard accepts and for which
    [getPostById] returns a post, the post page is returned, and the HTML
    it sets as it is are the prenote, when it is not empty, and then the
    rendered body; the page has no links of its own. *)
Theorem post_page_raw_html (fs : Fs.t) (id : list jsstring) (post : RenderedPost) :
  isValidPostId id = true ->
  run (getPostById matter process (destructure id)) fs = inr post ->
  exists page,
    snd (Post matter process id fs) = inr page /\
    rawHtmlOf page =
      match prenote (post_data post) with
      | [] => [html post]
      | _ => [prenote (post_data post); html post]
      end /\
    linkHrefs page = [].
Proof.
  intros Hv Hrun. unfold Post. rewrite Hv. cbn [negb].
  unfold run in Hrun.
  destruct (getPostById matter process (destructure id) fs) as [tr r].
  cbn [snd] in *. subst r.
  exists (postView post). split; [reflexivity|].
  unfold postView. destruct (prenote (post_data post)); split; reflexivity.
Qed.

End MorePageFacts.

(* ================================================================== *)
(** * The further properties on the small site *)
(* ================================================================== *)

Lemma demoNames_post_files :
  Forall (fun fn => isPostFileName fn = true) demoNames.
Proof. repeat constructor. Qed.

Lemma demoNames_no_slash : Forall (fun fn => ~ In SLASH fn) demoNames.
Proof. repeat constructor; vm_compute; intuition discriminate. Qed.

Lemma demoNames_readable (fn : jsstring) :
  In fn demoNames -> exists r, run (readMatter plainMatter fn) demoFs = inr r.
Proof.
  intros [<-|[<-|[<-|[]]]]; eexists; vm_compute; reflexivity.
Qed.

Lemma static_params_resolve_witness :
  exists params,
    run (generateStaticParams plainMatter) demoFs = inr params /\
    Forall2 (fun fn p =>
               p = objectValues (postIdOf fn) /\
               isValidPostId p = true /\
               reads (getPostById plainMatter echoProcess (destructure p)) demoFs =
                 [ReadFile (Path.join postsDir fn)])
            [lit "20250703-Views.md"; lit "20231103-Deep-dive.md";
             lit "20230921-EF-Core.md"] params.
Proof.
  apply (static_params_resolve plainMatter echoProcess demoFs demoNames).
  - reflexivity.
  - exact demoNames_post_files.
  - exact demoNames_readable.
Defined.

Lemma not_found_iff_invalid_witness :
  snd (Post plainMatter echoProcess
         [lit "2025"; lit "7"; lit "03"; lit "Views"] demoFs) = inl NEXT_NOT_FOUND /\
  fst (Post plainMatter echoProcess
         [lit "2025"; lit "7"; lit "03"; lit "Views"] demoFs) = [] /\
  generateMetadata plainMatter echoProcess demoTitle
      [lit "2025"; lit "7"; lit "03"; lit "Views"] demoFs =
    ([], inr {| metadata_title := demoTitle |}).
Proof.
  destruct (not_found_iff_invalid plainMatter echoProcess demoTitle demoFs
              [lit "2025"; lit "7"; lit "03"; lit "Views"]) as [[_ Hnf] Hreads].
  split; [apply Hnf; reflexivity|]. apply Hreads. reflexivity.
Defined.


Lemma valid_id_without_slash_stays_inside_witness :
  reads (getPostById plainMatter echoProcess
           {| year := lit "2025"; month := lit "07"; day := lit "03";
              slug := lit "Views" |}) demoFs =
    [ReadFile (lit "posts/20250703-Views.md")] /\
  insidePostsDir (lit "posts/20250703-Views.md") = true.
Proof.
  apply (valid_id_without_slash_stays_inside plainMatter echoProcess demoFs
           (lit "2025") (lit "07") (lit "03") (lit "Views")).
  - reflexivity.
  - vm_compute. intuition discriminate.
Defined.

Lemma listing_reads_each_file_once_witness :
  reads (getPostInfosOrderedByDateDesc plainMatter) demoFs =
    [ReadDir (lit "posts"); ReadFile (lit "posts/20250703-Views.md");
     ReadFile (lit "posts/20231103-Deep-dive.md");
     ReadFile (lit "posts/20230921-EF-Core.md")] /\
  length demoInfos = 3.
Proof.
  destruct (listing_reads_each_file_once plainMatter demoFs demoNames demoInfos
              eq_refl eq_refl) as (Hreads & _ & _ & Hlen).
  split; [exact Hreads|exact Hlen].
Defined.

Lemma listing_fails_at_first_error_witness :
  run (getPostInfosOrderedByDateDesc plainMatter) brokenFs =
    inl (EISDIR (lit "posts/2024")) /\
  reads (getPostInfosOrderedByDateDesc plainMatter) brokenFs =
    [ReadDir (lit "posts"); ReadFile (lit "posts/20250703-Views.md");
     ReadFile (lit "posts/2024")].
Proof.
  apply (listing_fails_at_first_error plainMatter brokenFs
           [lit "20230921-EF-Core.md"; lit "2024"; lit "20250703-Views.md"]
           [lit "20250703-Views.md"] [lit "20230921-EF-Core.md"]
           (lit "2024") (EISDIR (lit "posts/2024"))).
  - reflexivity.
  - reflexivity.
  - intros fn [<-|[]]. eexists. vm_compute. reflexivity.
  - reflexivity.
Defined.

Lemma listed_post_resolves_witness :
  Forall (fun info =>
            exists r,
              info_data info = data r /\ intro info = introOf (content r) /\
              run (getPostById plainMatter echoProcess (id info)) demoFs =
                match echoProcess (content r) with
                | inl e => inl e
                | inr postHtml => inr {| html := postHtml; post_data := data r |}
                end)
         demoInfos.
Proof.
  apply (listed_post_resolves plainMatter echoProcess demoFs demoNames demoInfos).
  - reflexivity.
  - exact demoNames_post_files.
  - reflexivity.
Defined.

Lemma home_links_resolve_witness :
  exists page,
    run (Home plainMatter) demoFs = inr page /\
    linkHrefs page =
      [lit "/2025/07/03/Views"; lit "/2023/11/03/Deep-dive";
       lit "/2023/09/21/EF-Core"].
Proof.
  destruct (home_links_resolve plainMatter demoFs demoNames eq_refl
              demoNames_post_files demoNames_no_slash demoNames_readable)
    as (page & Hrun & _).
  exists page. split; [exact Hrun|].
  vm_compute in Hrun. injection Hrun as <-. reflexivity.
Defined.

Lemma post_page_raw_html_witness :
  exists page,
    snd (Post titleMatter echoProcess
           [lit "2023"; lit "11"; lit "03"; lit "Deep-dive"] demoFs) = inr page /\
    rawHtmlOf page = [lit "More."; []].
Proof.
  destruct (post_page_raw_html titleMatter echoProcess demoFs
              [lit "2023"; lit "11"; lit "03"; lit "Deep-dive"]
              {| html := [];
                 post_data := {| title := lit "Azure."; prenote := lit "More.";
                                 date := lit "2025-07-03" |} |}
              eq_refl eq_refl) as (page & Hpage & Hraw & _).
  exists page. split; [exact Hpage|exact Hraw].
Defined.

(* ================================================================== *)
(** * Slugs that leave the posts directory *)
(* ================================================================== *)

Lemma eqb_length_neq (a b : jsstring) :
  length a <> length b -> JS.eqb a b = false.
Proof.
  intros H. destruct (JS.eqb a b) eqn:E; [|reflexivity].
  apply eqb_eq in E. now subst.
Qed.

(** The path of a file name whose slug climbs two directories up. *)
Lemma join_climbing_name (first name : jsstring) (c : codeunit) (rest : jsstring) :
  first = c :: rest -> c <> 46%N -> ~ In SLASH first -> ~ In SLASH name ->
  Path.join postsDir (first ++ lit "/../../" ++ name ++ lit ".md") =
  name ++ lit ".md".
Proof.
  intros Hfirst Hc Hf Hn.
  set (last := name ++ lit ".md").
  assert (Hlast : ~ In SLASH last).
  { unfold last. intros H. apply in_app_or in H as [H|H]; [contradiction|].
    cbv in H. intuition discriminate. }
  assert (Hlen : 3 <= length last).
  { unfold last. rewrite length_app. change (length (lit ".md")) with 3. lia. }
  assert (Hj : Path.join postsDir (first ++ lit "/../../" ++ last) =
               Path.normalize (postsDir ++ [SLASH] ++ first ++ lit "/../../" ++ last)).
  { rewrite Hfirst. reflexivity. }
  rewrite Hj. clear Hj.
  assert (Hsplit : split SLASH (postsDir ++ [SLASH] ++ first ++ lit "/../../" ++ last) =
                   [postsDir; first; lit ".."; lit ".."; last]).
  { change (lit "/../../") with ([SLASH] ++ lit ".." ++ [SLASH] ++ lit ".." ++ [SLASH]).
    rewrite <- !app_assoc. cbn [app].
    rewrite split_app_sep by reflexivity.
    rewrite split_app_sep by now apply not_In_forallb.
    change (46%N :: 46%N :: SLASH :: 46%N :: 46%N :: SLASH :: last)
      with (lit ".." ++ SLASH :: lit ".." ++ SLASH :: last).
    rewrite split_app_sep by reflexivity.
    rewrite split_app_sep by reflexivity.
    now rewrite split_no_sep. }
  assert (Hend : endsWith (postsDir ++ [SLASH] ++ first ++ lit "/../../" ++ last)
                          [SLASH] = false).
  { rewrite !app_assoc. apply endsWith_no_slash; [|assumption].
    intros E. rewrite E in Hlen. simpl in Hlen. lia. }
  assert (F0 : JS.eqb first [] = false) by (rewrite Hfirst; reflexivity).
  assert (F1 : JS.eqb first (lit ".") = false).
  { rewrite Hfirst. cbn [lit list_ascii_of_string map JS.eqb].
    destruct (N.eqb_spec c (N_of_ascii ".")) as [E|_]; [|reflexivity].
    now apply Hc in E. }
  assert (F2 : JS.eqb first (lit "..") = false).
  { rewrite Hfirst. cbn [lit list_ascii_of_string map JS.eqb].
    destruct (N.eqb_spec c (N_of_ascii ".")) as [E|_]; [|reflexivity].
    now apply Hc in E. }
  assert (L0 : JS.eqb last [] = false) by (apply eqb_length_neq; simpl; lia).
  assert (L1 : JS.eqb last (lit ".") = false) by (apply eqb_length_neq; simpl; lia).
  assert (L2 : JS.eqb last (lit "..") = false) by (apply eqb_length_neq; simpl; lia).
  unfold Path.normalize. rewrite Hsplit, Hend.
  cbn [fold_left].
  change (Path.normalizeStep (negb (startsWith (postsDir ++ [SLASH] ++ first ++ lit "/../../" ++ last) [SLASH])) [] postsDir)
    with [postsDir].
  change (negb (startsWith (postsDir ++ [SLASH] ++ first ++ lit "/../../" ++ last) [SLASH]))
    with true.
  assert (S1 : Path.normalizeStep true [postsDir] first = [first; postsDir]).
  { unfold Path.normalizeStep. now rewrite F0, F1, F2. }
  assert (S2 : Path.normalizeStep true [first; postsDir] (lit "..") = [postsDir]).
  { unfold Path.normalizeStep.
    change (JS.eqb (lit "..") [] || JS.eqb (lit "..") (lit ".")) with false.
    change (JS.eqb (lit "..") (lit "..")) with true. cbv iota. now rewrite F2. }
  assert (S3 : Path.normalizeStep true [postsDir] (lit "..") = []) by reflexivity.
  assert (S4 : Path.normalizeStep true [] last = [last]).
  { unfold Path.normalizeStep. now rewrite L0, L1, L2. }
  rewrite S1, S2, S3, S4. cbn [rev app JS.join].
  change (startsWith (postsDir ++ [SLASH] ++ first ++ lit "/../../" ++ last) [SLASH])
    with false.
  destruct last as [|x l]; [simpl in Hlen; lia|reflexivity].
Qed.

Section ClimbingFacts.

Variable matter : jsstring -> exn + MatterFile.
Variable process : jsstring -> exn + jsstring.

(** X14. For every year, month and day that the route guard accepts and
    every name without slash, the slug [x/../../name] passes the guard and
    makes [getPostById] read [name.md] next to the posts directory, not in
    it; when that file exists its text is parsed and rendered as a post. *)
Theorem climbing_slug_reads_sibling (fs : Fs.t) (y m d x name text : jsstring) :
  isValidPostId [y; m; d; lit ""] = true ->
  ~ In SLASH x -> ~ In SLASH name ->
  fs (name ++ lit ".md") = Some (Fs.File text) ->
  let s := x ++ lit "/../../" ++ name in
  let args := {| year := y; month := m; day := d; slug := s |} in
  isValidPostId [y; m; d; s] = true /\
  reads (getPostById matter process args) fs = [ReadFile (name ++ lit ".md")] /\
  insidePostsDir (name ++ lit ".md") = false /\
  run (getPostById matter process args) fs =
    match matter text with
    | inl e => inl e
    | inr r =>
        match process (content r) with
        | inl e => inl e
        | inr postHtml => inr {| html := postHtml; post_data := data r |}
        end
    end.
Proof.
  intros Hv Hx Hname Hfs s args.
  assert (Hv' : isValidPostId [y; m; d; s] = true) by exact Hv.
  cbn [isValidPostId] in Hv. rewrite !andb_true_iff, !Nat.eqb_eq in Hv.
  destruct Hv as [[[Ly Dy] [Lm Dm]] [Ld Dd]].
  assert (Hjoin : Path.join postsDir (fileNameOf args) = name ++ lit ".md").
  { unfold fileNameOf, args, s. cbn [year month day slug].
    destruct y as [|c y'] eqn:Ey; [discriminate|]. rewrite <- Ey in *.
    assert (Dc : isDigit c = true).
    { rewrite Ey in Dy. cbn [forallb] in Dy. now apply andb_true_iff in Dy as [Dc _]. }
    replace (y ++ m ++ d ++ [HYPHEN] ++ (x ++ lit "/../../" ++ name) ++ lit ".md")
      with ((y ++ m ++ d ++ [HYPHEN] ++ x) ++ lit "/../../" ++ name ++ lit ".md")
      by now rewrite <- !app_assoc.
    apply (join_climbing_name _ name c (y' ++ m ++ d ++ [HYPHEN] ++ x)).
    - now rewrite Ey.
    - unfold isDigit in Dc. apply andb_true_iff in Dc as [H1 H2].
      apply N.leb_le in H1. lia.
    - intros H.
      apply in_app_or in H as [H|H]; [now apply digits_no_slash in H|].
      apply in_app_or in H as [H|H]; [now apply digits_no_slash in H|].
      apply in_app_or in H as [H|H]; [now apply digits_no_slash in H|].
      cbn [app] in H. destruct H as [H|H]; [discriminate H|contradiction].
    - assumption. }
  split; [exact Hv'|]. split; [now rewrite reads_getPostById, Hjoin|]. split.
  - unfold insidePostsDir.
    destruct (startsWith (name ++ lit ".md") (postsDir ++ [SLASH])) eqn:E;
      [|reflexivity].
    apply startsWith_inv in E. exfalso.
    assert (Hin : In SLASH (name ++ lit ".md")).
    { rewrite E. apply in_or_app. left. apply in_or_app. right. now left. }
    apply in_app_or in Hin as [H|H]; [contradiction|].
    cbv in H. intuition discriminate.
  - now rewrite run_getPostById, run_readMatter, Hjoin, Hfs.
Qed.

End ClimbingFacts.

Lemma climbing_slug_reads_sibling_witness :
  isValidPostId [lit "2025"; lit "07"; lit "03"; lit "x/../../README"] = true /\
  reads (getPostById plainMatter echoProcess
           {| year := lit "2025"; month := lit "07"; day := lit "03";
              slug := lit "x/../../README" |}) demoFs =
    [ReadFile (lit "README.md")] /\
  run (getPostById plainMatter echoProcess
         {| year := lit "2025"; month := lit "07"; day := lit "03";
            slug := lit "x/../../README" |}) demoFs =
    inr {| html := lit "Not a post."; post_data := noData |}.
Proof.
  destruct (climbing_slug_reads_sibling plainMatter echoProcess demoFs
              (lit "2025") (lit "07") (lit "03") (lit "x") (lit "README")
              (lit "Not a post.")) as (Hv & Hr & _ & Hrun).
  - reflexivity.
  - vm_compute. intuition discriminate.
  - vm_compute. intuition discriminate.
  - reflexivity.
  - split; [exact Hv|]. split; [exact Hr|exact Hrun].
Defined.

(* ================================================================== *)
(** * The reader on a file that is not there *)
(* ================================================================== *)

(** On a well-formed filesystem the checks of [readFileSync] can be read
    in the order in which they are made: the path and the walk along it
    first, then the file. *)
Lemma readFileSync_wellFormed (fs : Fs.t) (path : jsstring) :
  wellFormed fs ->
  run (readFileSync path) fs =
  match pathError fs path with
  | Some e => inl e
  | None =>
      match fs path with
      | Some (Fs.File content) => inr content
      | Some (Fs.Dir _) => inl (EISDIR path)
      | None => inl (ENOENT path)
      end
  end.
Proof.
  intros Hwf. unfold run, readFileSync. cbn [snd].
  destruct (fs path) as [node|] eqn:E.
  - rewrite (Hwf path) by congruence. reflexivity.
  - unfold missingError. now destruct (pathError fs path).
Qed.







